(** * nvidia-lstm-forecast: the authentication core and the SQLite access layer

    A shallow embedding of
      - [src/utils/database_manager.py]   (module [DatabaseManager]),
      - [src/api/utils/jwt_handler.py]    (module [JwtHandler]),
      - [src/api/services/auth_service.py] (module [AuthService]),
      - [src/api/routes/auth.py]          (module [AuthRoutes]),
    followed by the properties of the specification that concern them.

    Conventions.  Python code that raises is a computation in the monad [M]
    (state passing over a [world], result [Ok] or [Raise]); [try]/[except]
    is [try_except].  Text is modelled by [string] read as ASCII; [upper],
    [lower] and [strip] act as Python's do on ASCII text.  Calls to the
    logger have no effect on any result and are left out. *)

From Stdlib Require Import ZArith Ascii String.
From stdpp Require Import gmap strings list pretty.

Set Warnings "-register-all".

Local Open Scope string_scope.
Local Open Scope Z_scope.

(** ** Python values, exceptions and the effect monad *)

Module Py.

(** The values that travel through bind tuples, rows and token claims. *)
Inductive pyval : Type :=
  | PNone
  | PBool (b : bool)
  | PInt (n : Z)
  | PStr (s : string)
  | PTuple (items : list pyval)
  | PList (items : list pyval).

Definition is_tuple (v : pyval) : bool :=
  match v with PTuple _ => true | _ => false end.

(** [v == s] for a string literal [s]. *)
Definition eq_str (v : option pyval) (s : string) : bool :=
  match v with
  | Some (PStr t) => String.eqb t s
  | _ => false
  end.

(** What a value becomes after [json.dumps] then [json.loads]: tuples come
    back as lists, everything else unchanged. *)
Fixpoint to_json (v : pyval) : pyval :=
  match v with
  | PTuple items => PList (map to_json items)
  | PList items => PList (map to_json items)
  | _ => v
  end.

(** The exceptions of sqlite3 that [DatabaseManager] tells apart.
    [SqliteDatabaseError] stands for [sqlite3.DatabaseError] and those of its
    subclasses not listed before it (such as [ProgrammingError]);
    [OtherError] for any exception outside that hierarchy. *)
Inductive sqlite_error : Type :=
  | IntegrityError (msg : string)
  | OperationalError (msg : string)
  | SqliteDatabaseError (msg : string)
  | OtherError (msg : string).

Definition str_of_error (e : sqlite_error) : string :=
  match e with
  | IntegrityError m | OperationalError m
  | SqliteDatabaseError m | OtherError m => m
  end.

(** The exceptions that cross function boundaries in the modelled code. *)
Inductive exn : Type :=
  | DatabaseError (msg : string)
  | HTTPException (status_code : Z) (detail : string)
  | AttributeError (msg : string)
  | PyException (msg : string).

Inductive outcome (A : Type) : Type :=
  | Ok (a : A)
  | Raise (e : exn).
Arguments Ok {A} a.
Arguments Raise {A} e.

(** *** Text *)

Definition code (c : ascii) : N := N_of_ascii c.

(** [str.isspace] on ASCII. *)
Definition is_space (c : ascii) : bool :=
  let n := code c in
  ((9 <=? n) && (n <=? 13) || (28 <=? n) && (n <=? 32))%N.

Definition is_lower (c : ascii) : bool :=
  let n := code c in ((97 <=? n) && (n <=? 122))%N.

Definition is_upper (c : ascii) : bool :=
  let n := code c in ((65 <=? n) && (n <=? 90))%N.

Definition is_digit (c : ascii) : bool :=
  let n := code c in ((48 <=? n) && (n <=? 57))%N.

Definition is_alpha (c : ascii) : bool := is_lower c || is_upper c.

Definition upper_char (c : ascii) : ascii :=
  if is_lower c then ascii_of_N (code c - 32) else c.

Definition lower_char (c : ascii) : ascii :=
  if is_upper c then ascii_of_N (code c + 32) else c.

Fixpoint map_chars (f : ascii → ascii) (s : string) : string :=
  match s with
  | EmptyString => EmptyString
  | String c s' => String (f c) (map_chars f s')
  end.

(** [str.upper] and [str.lower] on ASCII text.  On other text Python's
    methods know more letters; no property below is stated on such text. *)
Definition upper : string → string := map_chars upper_char.
Definition lower : string → string := map_chars lower_char.

Fixpoint lstrip (s : string) : string :=
  match s with
  | EmptyString => EmptyString
  | String c s' => if is_space c then lstrip s' else s
  end.

Fixpoint rstrip (s : string) : string :=
  match s with
  | EmptyString => EmptyString
  | String c s' =>
      match rstrip s' with
      | EmptyString => if is_space c then EmptyString else String c EmptyString
      | r => String c r
      end
  end.

(** [str.strip] on ASCII text (Python's also removes the blanks of
    Unicode). *)
Definition strip (s : string) : string := rstrip (lstrip s).

(** [s.startswith(p)] *)
Definition startswith (s p : string) : bool := String.prefix p s.

(** [p in s] *)
Fixpoint contains (s p : string) : bool :=
  String.prefix p s ||
  match s with
  | EmptyString => false
  | String _ s' => contains s' p
  end.

(** [s.replace(c, "")] for a one-character [c]. *)
Fixpoint remove_char (c : ascii) (s : string) : string :=
  match s with
  | EmptyString => EmptyString
  | String d s' =>
      if Ascii.eqb c d then remove_char c s' else String d (remove_char c s')
  end.

Fixpoint all_chars (p : ascii → bool) (s : string) : bool :=
  match s with
  | EmptyString => true
  | String c s' => p c && all_chars p s'
  end.

(** [s.isalnum()] on ASCII text: non-empty and made of letters and digits.
    Python's method also accepts the letters and digits of Unicode, so a
    property that depends on a refusal by [isalnum] is stated for ASCII
    text only. *)
Definition isalnum (s : string) : bool :=
  match s with
  | EmptyString => false
  | _ => all_chars (λ c, is_alpha c || is_digit c) s
  end.

End Py.
Import Py.

(** ** The world the code runs in *)

Module World.

(** A row as [sqlite3.Row] presents it: access by column name. *)
Abbreviation row := (gmap string pyval).

(** A record of the [users] table. *)
Record user_row : Type := {
  id : Z;
  username : string;
  hashed_password : string;
}.

(** A [sqlite3.Cursor] after a statement ran. *)
Record cursor : Type := {
  fetched : list row;
  cur_lastrowid : option Z;
  cur_rowcount : Z;
}.

(** What the store does on one connection, as far as the code cannot
    decide it: the driver raises, or the engine answers a statement over
    tables other than [users]. *)
Inductive reply : Type :=
  | Fail (e : sqlite_error)
  | Answer (c : cursor).

(** The attributes of a [DatabaseManager] object.  [connection] is read by
    [close] only; [None] is an attribute that was never assigned. *)
Record instance : Type := {
  db_path : string;
  connection : option nat;
}.

Record world : Type := {
  manager : instance;        (* the module-level [manager] of auth_service *)
  users : list user_row;     (* the [users] table, in rowid order *)
  env : list reply;          (* the store's behaviour on the coming connections *)
  connections : nat;         (* how many times [sqlite3.connect] was called *)
  seed : nat;                (* the salt source of the password context *)
  clock : Z;                 (* [datetime.utcnow()], in seconds *)
}.

Definition set_manager (m : instance) (w : world) : world :=
  {| manager := m; users := users w; env := env w;
     connections := connections w; seed := seed w; clock := clock w |}.

Definition set_users (us : list user_row) (w : world) : world :=
  {| manager := manager w; users := us; env := env w;
     connections := connections w; seed := seed w; clock := clock w |}.

(** Opening a connection uses up the head of [env]. *)
Definition connect (w : world) : world :=
  {| manager := manager w; users := users w; env := tail (env w);
     connections := S (connections w); seed := seed w; clock := clock w |}.

Definition next_seed (w : world) : world :=
  {| manager := manager w; users := users w; env := env w;
     connections := connections w; seed := S (seed w); clock := clock w |}.

(** The effect monad. *)
Definition M (A : Type) : Type := world → outcome A * world.

Definition ret {A} (a : A) : M A := λ w, (Ok a, w).

Definition raise {A} (e : exn) : M A := λ w, (Raise e, w).

Definition bind {A B} (m : M A) (k : A → M B) : M B :=
  λ w, match m w with
       | (Ok a, w') => k a w'
       | (Raise e, w') => (Raise e, w')
       end.

(** [try: m  except <any exn e for which h e is given>: h e] *)
Definition try_except {A} (m : M A) (h : exn → option (M A)) : M A :=
  λ w, match m w with
       | (Ok a, w') => (Ok a, w')
       | (Raise e, w') =>
           match h e with
           | Some k => k w'
           | None => (Raise e, w')
           end
       end.

Definition gets {A} (f : world → A) : M A := λ w, (Ok (f w), w).

End World.
Import World.

Notation "x <- m ;; k" := (bind m (λ x, k))
  (at level 100, m at next level, right associativity).
Notation "m ;;; k" := (bind m (λ _, k))
  (at level 100, right associativity).

(** ** src/utils/database_manager.py *)

Module DatabaseManager.

(** *** The store behind [sqlite3.connect]

    The two statements auth_service issues are interpreted on the [users]
    table; every other statement is answered by the environment.  What
    another statement would do to the [users] table itself (a DELETE or an
    UPDATE of its records) is outside the model, which leaves the table as
    it is; no property below runs such a statement against a table it then
    reads. *)

Definition USERS_SELECT : string :=
  "SELECT username, hashed_password FROM users WHERE username = ? LIMIT 1".

Definition USERS_INSERT : string :=
  "INSERT INTO users (username, hashed_password) VALUES (?, ?)".

Definition row_of_user (r : user_row) : row :=
  {[ "username" := PStr (username r);
     "hashed_password" := PStr (hashed_password r) ]}.

Definition named (u : string) (r : user_row) : bool := String.eqb (username r) u.

(** The rowid SQLite gives the next record: one more than the largest. *)
Definition next_rowid (us : list user_row) : Z :=
  1 + foldr Z.max 0 (id <$> us).

(** The answer to a statement when the environment has none ready. *)
Definition quiet : cursor :=
  {| fetched := []; cur_lastrowid := None; cur_rowcount := -1 |}.

Definition run_statement (query : string) (values : list pyval)
    (answer : cursor) (us : list user_row) : cursor * list user_row :=
  if String.eqb query USERS_SELECT then
    match values with
    | [PStr u] =>
        ({| fetched := row_of_user <$> take 1 (List.filter (named u) us);
            cur_lastrowid := None; cur_rowcount := -1 |}, us)
    | _ => (answer, us)
    end
  else if String.eqb query USERS_INSERT then
    match values with
    | [PStr u; PStr h] =>
        let i := next_rowid us in
        ({| fetched := []; cur_lastrowid := Some i; cur_rowcount := 1 |},
         (us ++ [{| id := i; username := u; hashed_password := h |}])%list)
    | _ => (answer, us)
    end
  else (answer, us).

Definition answer_of (r : option reply) : cursor :=
  match r with
  | Some (Answer c) => c
  | _ => quiet
  end.

(** [with sqlite3.connect(path) as conn: cursor.execute(query, values);
    conn.commit()]: the error raised, or the cursor. *)
Definition sqlite_execute (query : string) (values : list pyval)
    (w : world) : (sqlite_error + cursor) * world :=
  match head (env w) with
  | Some (Fail e) => (inl e, connect w)
  | r =>
      let '(c, us) := run_statement query values (answer_of r) (users w) in
      (inr c, set_users us (connect w))
  end.

(** The bind tuples of a batch over [users], when all have that shape. *)
Fixpoint users_batch (items : list pyval) (us : list user_row)
    : option (list user_row) :=
  match items with
  | [] => Some us
  | PTuple [PStr u; PStr h] :: rest =>
      users_batch rest
        (us ++ [{| id := next_rowid us; username := u;
                   hashed_password := h |}])%list
  | _ => None
  end.

(** [cursor.executemany(query, values_list); conn.commit()]: the error
    raised, or [cursor.rowcount]. *)
Definition sqlite_executemany (query : string) (items : list pyval)
    (w : world) : (sqlite_error + Z) * world :=
  match head (env w) with
  | Some (Fail e) => (inl e, connect w)
  | r =>
      if String.eqb query USERS_INSERT then
        match users_batch items (users w) with
        | Some us => (inr (Z.of_nat (length items)), set_users us (connect w))
        | None => (inr (cur_rowcount (answer_of r)), connect w)
        end
      else (inr (cur_rowcount (answer_of r)), connect w)
  end.

(** *** The class *)

(** The object [_execute] returns. *)
Record CursorResult : Type := {
  _rows : option (list row);
  lastrowid : option Z;
  rowcount : Z;
}.

Definition fetchall (c : CursorResult) : list row :=
  match _rows c with
  | Some (r :: rs) => r :: rs
  | _ => []
  end.

Definition __init__ (path : string) : M unit :=
  λ w, (Ok tt, set_manager {| db_path := path; connection := None |} w).

Definition has_verb (query verb : string) : bool :=
  startswith (upper (strip query)) verb.

(** The [except] clauses of [_execute]. *)
Definition execute_error (e : sqlite_error) : exn :=
  match e with
  | IntegrityError m => DatabaseError ("Constraint violation: " +:+ m)
  | OperationalError m =>
      let error_msg := lower m in
      if contains error_msg "locked" then
        DatabaseError "Database is locked - try again later"
      else if contains error_msg "no such table" then
        DatabaseError ("Table does not exist: " +:+ m)
      else if contains error_msg "syntax error" then
        DatabaseError ("SQL syntax error: " +:+ m)
      else DatabaseError ("Operational error: " +:+ m)
  | SqliteDatabaseError m => DatabaseError ("Database error: " +:+ m)
  | OtherError m =>
      DatabaseError ("Unexpected error during execution: " +:+ m)
  end.

Definition _execute (query : string) (values : list pyval) : M CursorResult :=
  λ w, match sqlite_execute query values w with
       | (inr c, w') =>
           let result_cursor :=
             if has_verb query "SELECT" then Some (fetched c) else None in
           (Ok {| _rows := result_cursor;
                  lastrowid := cur_lastrowid c;
                  rowcount := cur_rowcount c |}, w')
       | (inl e, w') => (Raise (execute_error e), w')
       end.

(** The [except] clauses of [insert_many]. *)
Definition batch_error (e : sqlite_error) : exn :=
  match e with
  | IntegrityError m => DatabaseError ("Constraint violation: " +:+ m)
  | OperationalError m =>
      let error_msg := lower m in
      if contains error_msg "locked" then
        DatabaseError "Database is locked - try again later"
      else if contains error_msg "no such table" then
        DatabaseError ("Table does not exist: " +:+ m)
      else if contains error_msg "syntax error" then
        DatabaseError ("SQL syntax error: " +:+ m)
      else DatabaseError ("Database operation failed: " +:+ m)
  | SqliteDatabaseError m => DatabaseError ("Database error: " +:+ m)
  | OtherError m =>
      DatabaseError ("Unexpected error during batch insert: " +:+ m)
  end.

(** [isinstance(values_list, list) and all(isinstance(item, tuple) ...)] *)
Definition list_of_tuples (values_list : pyval) : option (list pyval) :=
  match values_list with
  | PList items => if forallb is_tuple items then Some items else None
  | _ => None
  end.

Definition insert_many (query : string) (values_list : pyval) : M Z :=
  if negb (has_verb query "INSERT") then
    raise (DatabaseError "Query must be an INSERT statement")
  else
    match list_of_tuples values_list with
    | None => raise (DatabaseError "Values must be a list of tuples")
    | Some items =>
        λ w, match sqlite_executemany query items w with
             | (inr n, w') => (Ok n, w')
             | (inl e, w') => (Raise (batch_error e), w')
             end
    end.

Definition insert (query : string) (values : list pyval) : M Z :=
  if negb (has_verb query "INSERT") then
    raise (DatabaseError "Query must be an INSERT statement")
  else
    cursor <- _execute query values ;;
    match lastrowid cursor with
    | None => raise (DatabaseError "INSERT did not return a row ID")
    | Some row_id => ret row_id
    end.

(** [values or ()] *)
Definition or_empty (values : option (list pyval)) : list pyval :=
  match values with
  | Some vs => vs
  | None => []
  end.

Definition select (query : string) (values : option (list pyval))
    : M (list row) :=
  if negb (has_verb query "SELECT") then
    raise (DatabaseError "Query must be a SELECT statement")
  else
    cursor <- _execute query (or_empty values) ;;
    ret (fetchall cursor).

Definition update (query : string) (values : list pyval) : M Z :=
  if negb (has_verb query "UPDATE") then
    raise (DatabaseError "Query must be an UPDATE statement")
  else
    cursor <- _execute query values ;;
    ret (rowcount cursor).

Definition delete (query : string) (values : list pyval) : M Z :=
  if negb (has_verb query "DELETE") then
    raise (DatabaseError "Query must be a DELETE statement")
  else
    cursor <- _execute query values ;;
    ret (rowcount cursor).

Definition is_empty (s : string) : bool :=
  match s with EmptyString => true | _ => false end.

Definition table_exists (table_name : string) : M bool :=
  if is_empty table_name || is_empty (strip table_name) then
    raise (DatabaseError "Table name cannot be empty")
  else if negb (isalnum (remove_char "-" (remove_char "_" table_name))) then
    raise (DatabaseError "Table name contains invalid characters")
  else
    let query :=
      "SELECT name FROM sqlite_master WHERE type='table' AND name=?" in
    result <- select query (Some [PStr (strip table_name)]) ;;
    ret (0 <? length result)%nat.

Definition get_table_info (table_name : string) : M (list row) :=
  found <- table_exists table_name ;;
  if negb found then
    raise (DatabaseError ("Table '" +:+ table_name +:+ "' does not exist"))
  else
    let query := "PRAGMA table_info(" +:+ table_name +:+ ")" in
    select query None.

(** [self.connection.close()] *)
Definition close : M unit :=
  λ w, match connection (manager w) with
       | None =>
           (Raise (AttributeError
              "'DatabaseManager' object has no attribute 'connection'"), w)
       | Some _ =>
           (Ok tt, w)
       end.

End DatabaseManager.

(** ** src/api/utils/jwt_handler.py *)

Module JwtHandler.

(** The claims of a token: a Python [dict] with string keys. *)
Abbreviation claims := (gmap string pyval).

(** [jose.jwt] under the process-wide [SECRET_KEY] and [ALGORITHM].
    [jwt_decode token now] is [None] where the library raises [JWTError]
    (bad signature, malformed token, elapsed [exp], invalid claim).  What a
    token decodes to is the JSON image of the claims it was signed over; the
    three-claim payloads this service issues decode until they expire; a
    decoded [sub] is a string (the library rejects any other). *)
Class Jose : Type := {
  jwt_encode : claims → string;
  jwt_decode : string → Z → option claims;
  jwt_decode_encode : ∀ (c c' : claims) (now : Z),
    jwt_decode (jwt_encode c) now = Some c' → c' = to_json <$> c;
  jwt_decode_fresh : ∀ (s t : string) (e now : Z),
    (now ≤ e)%Z →
    jwt_decode
      (jwt_encode {[ "sub" := PStr s; "type" := PStr t; "exp" := PInt e ]}) now
    = Some {[ "sub" := PStr s; "type" := PStr t; "exp" := PInt e ]};
  jwt_decode_sub : ∀ (token : string) (now : Z) (c : claims) (v : pyval),
    jwt_decode token now = Some c → c !! "sub" = Some v → ∃ s, v = PStr s;
}.

Definition HTTP_401_UNAUTHORIZED : Z := 401.

(** The seconds of [minutes=m] and of [days=d]. *)
Definition minutes (m : Z) : Z := 60 * m.
Definition days (d : Z) : Z := 86400 * d.

(** The instants a [datetime] holds, years 1 to 9999, in seconds from the
    epoch, and the days a [timedelta] holds. *)
Definition DATETIME_MIN : Z := -62135596800.
Definition DATETIME_MAX : Z := 253402300799.
Definition TIMEDELTA_DAYS : Z := 999999999.

(** Python's [OverflowError]; the exception carries its class. *)
Definition OverflowError : exn := PyException "OverflowError".

Definition representable (instant : Z) : Prop :=
  DATETIME_MIN ≤ instant ≤ DATETIME_MAX.

Definition constructible (seconds : Z) : Prop :=
  - TIMEDELTA_DAYS ≤ seconds / 86400 ≤ TIMEDELTA_DAYS.

(** [timedelta(minutes=m)] or [timedelta(days=d)], given its seconds: the
    constructor raises [OverflowError] when the days exceed its range. *)
Definition timedelta (seconds : Z) : M Z :=
  if (- TIMEDELTA_DAYS <=? seconds / 86400)
     && (seconds / 86400 <=? TIMEDELTA_DAYS)
  then ret seconds
  else raise OverflowError.

(** [now + delta] on a [datetime]: [OverflowError] when the sum leaves
    years 1 to 9999.  Lifetimes are whole seconds, as the callers' are. *)
Definition datetime_add (now delta : Z) : M Z :=
  if (DATETIME_MIN <=? now + delta) && (now + delta <=? DATETIME_MAX)
  then ret (now + delta)
  else raise OverflowError.

(** [expires_delta or default]: [None] and the zero [timedelta] are falsy. *)
Definition delta_or (expires_delta : option Z) (default : Z) : Z :=
  match expires_delta with
  | Some d => if d =? 0 then default else d
  | None => default
  end.

Section with_jose.
Context `{Jose}.

Definition create_access_token (data : claims) (expires_delta : option Z)
    : M string :=
  now <- gets clock ;;
  let to_encode := data in
  expire <- datetime_add now (delta_or expires_delta (minutes 15)) ;;
  let to_encode := <[ "exp" := PInt expire ]> to_encode in
  ret (jwt_encode to_encode).

Definition decode_token (token : string) : M (option claims) :=
  now <- gets clock ;;
  ret (jwt_decode token now).

Definition get_current_user (token : string) : M (gmap string pyval) :=
  payload <- decode_token token ;;
  match payload with
  | None =>
      raise (HTTPException HTTP_401_UNAUTHORIZED
               "Invalid authentication credentials")
  | Some payload =>
      if negb (eq_str (payload !! "type") "access") then
        raise (HTTPException HTTP_401_UNAUTHORIZED
                 "Invalid authentication credentials")
      else
        match payload !! "sub" with
        | None =>
            raise (HTTPException HTTP_401_UNAUTHORIZED
                     "Invalid authentication credentials")
        | Some sub => ret {[ "username" := sub ]}
        end
  end.

Definition create_refresh_token (data : claims) (expires_delta : option Z)
    : M string :=
  now <- gets clock ;;
  let to_encode := data in
  let to_encode := <[ "type" := PStr "refresh" ]> to_encode in
  expire <- datetime_add now (delta_or expires_delta (days 7)) ;;
  let to_encode := <[ "exp" := PInt expire ]> to_encode in
  ret (jwt_encode to_encode).

Definition verify_refresh_token (token : string) : M claims :=
  now <- gets clock ;;
  match jwt_decode token now with
  | Some payload =>
      if negb (eq_str (payload !! "type") "refresh") then
        raise (HTTPException HTTP_401_UNAUTHORIZED "Invalid token type")
      else
        match payload !! "sub" with
        | None =>
            raise (HTTPException HTTP_401_UNAUTHORIZED "Invalid token payload")
        | Some _ => ret payload
        end
  | None =>
      raise (HTTPException HTTP_401_UNAUTHORIZED
               "Invalid or expired refresh token")
  end.

End with_jose.
End JwtHandler.

(** ** src/api/services/auth_service.py *)

Module AuthService.
Import DatabaseManager.

(** [passlib]'s [CryptContext(schemes=["bcrypt"])].  [pwd_hash secret salt]
    is [pwd_context.hash(secret)] when the salt drawn is [salt];
    [pwd_verify secret hash] is [pwd_context.verify(secret, hash)].  Either
    is [None] where the library raises. *)
Class CryptContext : Type := {
  pwd_hash : string → nat → option string;
  pwd_verify : string → string → option bool;
}.

Definition HTTP_500_INTERNAL_SERVER_ERROR : Z := 500.

(** What [get_user] returns: [{"username": ..., "hashed_password": ...}]. *)
Record user_info : Type := {
  info_username : string;
  info_hashed_password : string;
}.

(** What [create_user] returns: [{"id": ..., "username": ...}]. *)
Record created : Type := {
  created_id : Z;
  created_username : string;
}.

Section with_context.
Context `{CryptContext}.

(** [pwd_context.hash(password)] *)
Definition pwd_context_hash (password : string) : M string :=
  λ w, match pwd_hash password (seed w) with
       | Some h => (Ok h, next_seed w)
       | None => (Raise (PyException "pwd_context.hash"), next_seed w)
       end.

(** [pwd_context.verify(password, hashed)] *)
Definition pwd_context_verify (password hashed : string) : M bool :=
  match pwd_verify password hashed with
  | Some b => ret b
  | None => raise (PyException "pwd_context.verify")
  end.

Definition verify_password (plain_password hashed_password : string) : bool :=
  match pwd_verify plain_password hashed_password with
  | Some password_match => password_match
  | None => false
  end.

(** Any exception means [None].  The [users] table holds text in both
    columns; a row without them is a failed subscript. *)
Definition get_user (username : string) : M (option user_info) :=
  try_except
    (rows <- select USERS_SELECT (Some [PStr username]) ;;
     match rows with
     | [] => ret None
     | r :: _ =>
         match r !! "username", r !! "hashed_password" with
         | Some (PStr u), Some (PStr h) =>
             ret (Some {| info_username := u; info_hashed_password := h |})
         | _, _ => raise (PyException "IndexError")
         end
     end)
    (λ e, Some (ret None)).

(** [while get_user(f"{base_username}{suffix}") is not None: suffix += 1],
    run for at most [fuel] probes; [None] when the probes are used up. *)
Fixpoint next_free (fuel : nat) (base_username : string) (suffix : nat)
    : M (option nat) :=
  match fuel with
  | O => ret None
  | S fuel' =>
      found <- get_user (base_username +:+ pretty suffix) ;;
      match found with
      | Some _ => next_free fuel' base_username (S suffix)
      | None => ret (Some suffix)
      end
  end.

(** The tail of [create_user]: the insert and the returned dictionary. *)
Definition insert_user (username hashed : string) : M (option created) :=
  inserted_id <- insert USERS_INSERT [PStr username; PStr hashed] ;;
  ret (Some {| created_id := inserted_id; created_username := username |}).

(** The loop is given one probe more than the table has records, which it
    never uses up ([next_free_enough] below). *)
Definition create_user (username password : string) : M (option created) :=
  try_except
    (existing_user <- get_user username ;;
     hashed <- pwd_context_hash password ;;
     match existing_user with
     | Some existing =>
         same <- pwd_context_verify password (info_hashed_password existing) ;;
         if same then ret None
         else
           let base_username := username in
           fuel <- gets (λ w, S (length (users w))) ;;
           free <- next_free fuel base_username 1 ;;
           match free with
           | Some suffix =>
               insert_user (base_username +:+ pretty suffix) hashed
           | None => raise (PyException "probe bound")
           end
     | None => insert_user username hashed
     end)
    (λ e, Some (ret None)).

Definition authenticate_user (username password : string) : M string :=
  try_except
    (user <- get_user username ;;
     match user with
     | None =>
         raise (HTTPException JwtHandler.HTTP_401_UNAUTHORIZED
                  "Invalid username or password")
     | Some user =>
         if negb (verify_password password (info_hashed_password user)) then
           raise (HTTPException JwtHandler.HTTP_401_UNAUTHORIZED
                    "Invalid username or password")
         else ret username
     end)
    (λ e, match e with
          | HTTPException _ _ => None
          | _ => Some (raise (HTTPException HTTP_500_INTERNAL_SERVER_ERROR
                                "Internal server error during authentication"))
          end).

End with_context.
End AuthService.

(** ** src/api/schemas/auth_schema.py and src/api/routes/auth.py *)

Module AuthSchema.

Record UserRequest : Type := {
  username : string;
  password : string;
}.

Record TokenResponse : Type := {
  access_token : string;
  refresh_token : string;
  token_type : string;
}.

(** [TokenResponse(access_token=a, refresh_token=r)] *)
Definition make (a r : string) : TokenResponse :=
  {| access_token := a; refresh_token := r; token_type := "bearer" |}.

End AuthSchema.

Module AuthRoutes.
Import JwtHandler AuthService.

(** [int(os.getenv("ACCESS_TOKEN_EXPIRE_MINUTES", 30))] *)
Class Settings : Type := {
  ACCESS_TOKEN_EXPIRE_MINUTES : Z;
}.

Definition HTTP_400_BAD_REQUEST : Z := 400.

Section with_settings.
Context `{Jose} `{CryptContext} `{Settings}.

(** The token pair of [register] and [login]; each [timedelta] is built
    where the call that takes it is made. *)
Definition token_pair (username : string) : M AuthSchema.TokenResponse :=
  access_delta <- timedelta (minutes ACCESS_TOKEN_EXPIRE_MINUTES) ;;
  access_token <-
    create_access_token
      {[ "sub" := PStr username; "type" := PStr "access" ]}
      (Some access_delta) ;;
  refresh_delta <- timedelta (days 7) ;;
  refresh_token <-
    create_access_token
      {[ "sub" := PStr username; "type" := PStr "refresh" ]}
      (Some refresh_delta) ;;
  ret (AuthSchema.make access_token refresh_token).

Definition register (data : AuthSchema.UserRequest)
    : M AuthSchema.TokenResponse :=
  user <- create_user (AuthSchema.username data) (AuthSchema.password data) ;;
  match user with
  | None => raise (HTTPException HTTP_400_BAD_REQUEST "User already exists")
  | Some user => token_pair (created_username user)
  end.

(** [if not user] after [authenticate_user] never holds: the dictionary
    returned has a key. *)
Definition login (data : AuthSchema.UserRequest)
    : M AuthSchema.TokenResponse :=
  user <- authenticate_user (AuthSchema.username data)
            (AuthSchema.password data) ;;
  token_pair user.

Definition protected_route (token : string) : M string :=
  current_user <- get_current_user token ;;
  match current_user !! "username" with
  | Some (PStr name) =>
      ret ("Authenticated access granted to " +:+ name +:+ "!")
  | _ => raise (PyException "current_user")
  end.

Definition refresh_token (refresh_token : string)
    : M AuthSchema.TokenResponse :=
  payload <- verify_refresh_token refresh_token ;;
  match payload !! "sub" with
  | None => raise (PyException "KeyError: 'sub'")
  | Some username =>
      access_delta <- timedelta (minutes ACCESS_TOKEN_EXPIRE_MINUTES) ;;
      new_access_token <-
        create_access_token
          {[ "sub" := username; "type" := PStr "access" ]}
          (Some access_delta) ;;
      ret (AuthSchema.make new_access_token refresh_token)
  end.

End with_settings.
End AuthRoutes.

(** ** Notions the properties are stated with *)

Module Notions.
Import DatabaseManager AuthService.

(** The statement verbs of SQLite. *)
Inductive sql_verb : Type :=
  | SELECT | INSERT | UPDATE | DELETE | REPLACE | CREATE | DROP | ALTER
  | PRAGMA | WITH | BEGIN | COMMIT | ROLLBACK | SAVEPOINT | RELEASE
  | VACUUM | ANALYZE | ATTACH | DETACH | EXPLAIN | REINDEX.

Definition verb_text (v : sql_verb) : string :=
  match v with
  | SELECT => "SELECT" | INSERT => "INSERT" | UPDATE => "UPDATE"
  | DELETE => "DELETE" | REPLACE => "REPLACE" | CREATE => "CREATE"
  | DROP => "DROP" | ALTER => "ALTER" | PRAGMA => "PRAGMA" | WITH => "WITH"
  | BEGIN => "BEGIN" | COMMIT => "COMMIT" | ROLLBACK => "ROLLBACK"
  | SAVEPOINT => "SAVEPOINT" | RELEASE => "RELEASE" | VACUUM => "VACUUM"
  | ANALYZE => "ANALYZE" | ATTACH => "ATTACH" | DETACH => "DETACH"
  | EXPLAIN => "EXPLAIN" | REINDEX => "REINDEX"
  end.

Fixpoint take_alpha (s : string) : string :=
  match s with
  | EmptyString => EmptyString
  | String c s' => if is_alpha c then String c (take_alpha s') else EmptyString
  end.

(** The first word of a statement: the letters it starts with after the
    leading blanks, in upper case. *)
Definition leading_word (query : string) : string :=
  upper (take_alpha (lstrip query)).

Definition leading_verb (query : string) (v : sql_verb) : Prop :=
  leading_word query = verb_text v.

(** A batch as [insert_many] documents it: a list of tuples. *)
Definition batch_of (tuples : list (list pyval)) : pyval :=
  PList (PTuple <$> tuples).

(** A batch whose tuples all have one arity. *)
Definition same_arity (tuples : list (list pyval)) : Prop :=
  ∃ n : nat, Forall (λ t, length t = n) tuples.

(** The store takes no connection down. *)
Definition faultless (replies : list reply) : bool :=
  forallb (λ r, match r with Fail _ => false | Answer _ => true end) replies.

(** The record a lookup by name returns. *)
Definition stored (u : string) (us : list user_row) : option user_row :=
  head (List.filter (named u) us).

Definition taken (u : string) (us : list user_row) : Prop :=
  u ∈ World.username <$> us.

(** The dictionary [get_user] builds from a record. *)
Definition info_of (r : user_row) : user_info :=
  {| info_username := World.username r;
     info_hashed_password := hashed_password r |}.

(** The store takes the next connection down. *)
Definition store_down (w : world) : bool :=
  match head (env w) with
  | Some (Fail _) => true
  | _ => false
  end.

(** A failure the transport reports as 401. *)
Definition unauthenticated {A} (r : outcome A) : Prop :=
  ∃ detail, r = Raise (HTTPException 401 detail).

(** The operations a [DatabaseManager] exposes. *)
Inductive call : Type :=
  | CallInsert (query : string) (values : list pyval)
  | CallInsertMany (query : string) (values_list : pyval)
  | CallSelect (query : string) (values : option (list pyval))
  | CallUpdate (query : string) (values : list pyval)
  | CallDelete (query : string) (values : list pyval)
  | CallTableExists (table_name : string)
  | CallGetTableInfo (table_name : string)
  | CallClose.

(** The world after a call, whatever it returned or raised. *)
Definition after (w : world) (c : call) : world :=
  match c with
  | CallInsert q vs => snd (insert q vs w)
  | CallInsertMany q vl => snd (insert_many q vl w)
  | CallSelect q vs => snd (select q vs w)
  | CallUpdate q vs => snd (update q vs w)
  | CallDelete q vs => snd (delete q vs w)
  | CallTableExists t => snd (table_exists t w)
  | CallGetTableInfo t => snd (get_table_info t w)
  | CallClose => snd (close w)
  end.

End Notions.

(** ** Reference instances of the libraries, for the worked examples *)

Module Reference.
Import JwtHandler AuthService AuthRoutes.

Fixpoint bits (p : positive) : string :=
  match p with
  | xH => EmptyString
  | xO q => String "0" (bits q)
  | xI q => String "1" (bits q)
  end.

Fixpoint unbits (s : string) : option positive :=
  match s with
  | EmptyString => Some xH
  | String c s' =>
      if Ascii.eqb c "0" then xO <$> unbits s'
      else if Ascii.eqb c "1" then xI <$> unbits s'
      else None
  end.

Definition session (s t : string) (e : Z) : claims :=
  {[ "sub" := PStr s; "type" := PStr t; "exp" := PInt e ]}.

Definition view (c : claims) : option (string * string * Z) :=
  match c !! "sub", c !! "type", c !! "exp" with
  | Some (PStr s), Some (PStr t), Some (PInt e) =>
      if decide (size c = 3%nat) then Some (s, t, e) else None
  | _, _, _ => None
  end.

Definition ref_encode (c : claims) : string :=
  match view c with
  | Some x => String "J" (bits (encode x))
  | None => EmptyString
  end.

Definition ref_decode (token : string) (now : Z) : option claims :=
  match token with
  | String c b =>
      if Ascii.eqb c "J" then
        match unbits b ≫= decode with
        | Some (s, t, e) => if now <=? e then Some (session s t e) else None
        | None => None
        end
      else None
  | EmptyString => None
  end.

#[export] Instance ref_jose : Jose.
Proof.
  assert (∀ p, unbits (bits p) = Some p) as unbits_bits.
  { induction p as [p IH|p IH|]; simpl; [by rewrite IH..|done]. }
  assert (∀ c s t e, view c = Some (s, t, e) → c = session s t e) as view_inv.
  { unfold view. intros c s t e Hv.
    destruct (c !! "sub") as [[| | |s'| |]|] eqn:Hs; try done.
    destruct (c !! "type") as [[| | |t'| |]|] eqn:Ht; try done.
    destruct (c !! "exp") as [[| |e'| | |]|] eqn:He; try done.
    destruct (decide (size c = 3%nat)) as [Hsz|]; [|done].
    simplify_eq.
    assert (delete "exp" (delete "type" (delete "sub" c)) = ∅) as Hempty.
    { apply map_size_empty_inv. rewrite !map_size_delete.
      rewrite !lookup_delete_ne, Hs, Ht, He by done. by rewrite Hsz. }
    rewrite <-(insert_delete_id c "sub" (PStr s)) by done.
    rewrite <-(insert_delete_id (delete "sub" c) "type" (PStr t))
      by by rewrite lookup_delete_ne.
    rewrite <-(insert_delete_id (delete "type" (delete "sub" c)) "exp"
                 (PInt e)) by by rewrite !lookup_delete_ne.
    by rewrite Hempty. }
  refine {| jwt_encode := ref_encode; jwt_decode := ref_decode |}.
  - intros c c' now. unfold ref_encode.
    destruct (view c) as [[[s t] e]|] eqn:Hv; [|done].
    apply view_inv in Hv as ->. simpl.
    rewrite unbits_bits. simpl. rewrite decode_encode.
    destruct (now <=? e); [|done]. by intros [= <-].
  - intros s t e now Hle. unfold ref_encode.
    change (view _) with (Some (s, t, e)). simpl.
    rewrite unbits_bits. simpl. rewrite decode_encode.
    by rewrite (proj2 (Z.leb_le now e) Hle).
  - intros token now c v. unfold ref_decode.
    destruct token as [|a b]; [done|]. destruct (Ascii.eqb a "J"); [|done].
    destruct (unbits b ≫= decode) as [[[s t] e]|]; [|done].
    destruct (now <=? e); [|done]. intros [= <-].
    change (session s t e !! "sub") with (Some (PStr s)).
    intros [= <-]. by eexists.
Defined.

(** A salted hash that keeps the secret readable: salt, colon, secret. *)
Definition ref_hash (secret : string) (salt : nat) : option string :=
  Some (pretty salt +:+ ":" +:+ secret).

Fixpoint after_colon (s : string) : option string :=
  match s with
  | EmptyString => None
  | String c s' => if Ascii.eqb c ":" then Some s' else after_colon s'
  end.

Definition ref_verify (secret hashed : string) : option bool :=
  match after_colon hashed with
  | Some s => Some (String.eqb s secret)
  | None => None
  end.

#[export] Instance ref_context : CryptContext :=
  {| pwd_hash := ref_hash; pwd_verify := ref_verify |}.

#[export] Instance ref_settings : Settings :=
  {| ACCESS_TOKEN_EXPIRE_MINUTES := 30 |}.

(** A world with the given table and store behaviour, at time 1000. *)
Definition world_of (us : list user_row) (replies : list reply) : world :=
  {| manager := {| db_path := "data/nvidia_stock.db"; connection := None |};
     users := us; env := replies; connections := 0; seed := 7;
     clock := 1000 |}.

(** Two records: alice registered with secret [p1] under salt 3, and a
    later alice1. *)
Definition alice : user_row :=
  {| id := 1; World.username := "alice"; hashed_password := "3:p1" |}.

Definition alice1 : user_row :=
  {| id := 2; World.username := "alice1"; hashed_password := "5:p2" |}.

Definition request (u p : string) : AuthSchema.UserRequest :=
  {| AuthSchema.username := u; AuthSchema.password := p |}.

End Reference.

(** ** src/api/services/health_service.py and src/api/routes/health.py *)

Module HealthService.
Import DatabaseManager.

(** [str(e)], as the f-strings of the health code print an exception. *)
Definition str_of_exn (e : exn) : string :=
  match e with
  | DatabaseError m | AttributeError m | PyException m => m
  | HTTPException code detail => pretty code +:+ ": " +:+ detail
  end.

(** The dictionary [check_health] returns, and the [HealthResponse] the
    route builds from its two entries: both fields are strings. *)
Record HealthResponse : Type := {
  status : string;
  message : string;
}.

(** The module has a [DatabaseManager] of its own, over the same database
    file; [select] reads no attribute of it. *)
Definition check_health : M HealthResponse :=
  try_except
    (select "SELECT 1" None ;;;
     ret {| status := "ok";
            message := "API is healthy and database is connected." |})
    (λ e, Some (ret {| status := "error";
                       message := "Database connection failed: "
                                  +:+ str_of_exn e |})).

End HealthService.

Module HealthRoutes.
Import JwtHandler HealthService.

Section with_jose.
Context `{Jose}.

(** [Depends(get_current_user)] runs before the body.  [if not health]
    never holds: the dictionary has two keys. *)
Definition health (token : string) : M HealthResponse :=
  current_user <- get_current_user token ;;
  try_except
    (health <- check_health ;;
     ret health)
    (λ e, Some (raise (HTTPException 500
                         ("Internal Server Error: " +:+ str_of_exn e)))).

End with_jose.
End HealthRoutes.

(** ** Further notions *)

Module MoreNotions.
Import DatabaseManager.

(** An outcome of the access layer: a result, or the one wrapped error. *)
Definition result_or_database_error {A} (r : outcome A) : Prop :=
  match r with
  | Ok _ => True
  | Raise (DatabaseError _) => True
  | Raise _ => False
  end.

Definition is_alnum (c : ascii) : bool := is_alpha c || is_digit c.

Definition is_dash (c : ascii) : bool := Ascii.eqb "_" c || Ascii.eqb "-" c.



Section with_settings.
Import JwtHandler AuthRoutes.
Context `{Settings}.

(** The lifetime access tokens get: the configured minutes, fifteen when
    these are zero. *)
Definition access_lifetime : Z :=
  delta_or (Some (minutes ACCESS_TOKEN_EXPIRE_MINUTES)) (minutes 15).

(** The expiries of a token pair can be computed: the configured lifetime
    is one a [timedelta] holds, and both expiries are instants a [datetime]
    holds. *)
Definition pair_issuable (w : world) : Prop :=
  constructible (minutes ACCESS_TOKEN_EXPIRE_MINUTES)
  ∧ representable (clock w + access_lifetime)
  ∧ representable (clock w + days 7).

End with_settings.

End MoreNotions.

(** * Properties *)

(** ** Text and statement kinds *)

Section text_facts.
Import Notions DatabaseManager.

Example strip_upper_run :
  upper (strip "   Select name from sqlite_master  ")
  = "SELECT NAME FROM SQLITE_MASTER"
  ∧ leading_word "   Select name from sqlite_master  " = "SELECT"
  ∧ contains (lower "Database is LOCKED") "locked" = true
  ∧ isalnum (remove_char "-" (remove_char "_" "nvidia_stock-2024")) = true.
Proof. repeat split. Qed.

Lemma alpha_not_space c : is_alpha c = true → is_space c = false.
Proof. destruct c as [[] [] [] [] [] [] [] []]; vm_compute; congruence. Qed.

Lemma rstrip_cons c s : is_space c = false → rstrip (String c s) = String c (rstrip s).
Proof. intros Hc. simpl. rewrite Hc. by destruct (rstrip s). Qed.

Lemma rstrip_take_alpha s : ∃ r, rstrip s = take_alpha s +:+ r.
Proof.
  induction s as [|c s [r IH]]; [by exists EmptyString|].
  simpl take_alpha. destruct (is_alpha c) eqn:Hc.
  - exists r. rewrite rstrip_cons by by apply alpha_not_space.
    simpl. by rewrite IH.
  - by eexists.
Qed.

Lemma map_chars_app f a b : map_chars f (a +:+ b) = map_chars f a +:+ map_chars f b.
Proof. induction a as [|c a IH]; simpl; [done|by rewrite IH]. Qed.

(** The text the guards look at starts with the leading word. *)
Lemma upper_strip_leading query :
  ∃ r, upper (strip query) = leading_word query +:+ r.
Proof.
  destruct (rstrip_take_alpha (lstrip query)) as [r Hr].
  exists (upper r). unfold strip, leading_word, upper. by rewrite Hr, map_chars_app.
Qed.

Lemma has_verb_leading query v verb :
  leading_verb query v →
  ∃ r, has_verb query verb = String.prefix verb (verb_text v +:+ r).
Proof.
  intros Hv. destruct (upper_strip_leading query) as [r Hr].
  exists r. unfold has_verb, startswith. by rewrite Hr, Hv.
Qed.

Lemma select_guard_other query v :
  leading_verb query v → v ≠ SELECT → has_verb query "SELECT" = false.
Proof.
  intros Hv Hne. destruct (has_verb_leading query v "SELECT" Hv) as [r ->].
  destruct v; try done; reflexivity.
Qed.

Lemma select_guard_select query :
  leading_verb query SELECT → has_verb query "SELECT" = true.
Proof.
  intros Hv. destruct (has_verb_leading query SELECT "SELECT" Hv) as [r ->].
  simpl. by destruct r.
Qed.

Lemma insert_guard_other query v :
  leading_verb query v → v ≠ INSERT → has_verb query "INSERT" = false.
Proof.
  intros Hv Hne. destruct (has_verb_leading query v "INSERT" Hv) as [r ->].
  destruct v; try done; reflexivity.
Qed.

Lemma insert_guard_insert query :
  leading_verb query INSERT → has_verb query "INSERT" = true.
Proof.
  intros Hv. destruct (has_verb_leading query INSERT "INSERT" Hv) as [r ->].
  simpl. by destruct r.
Qed.

End text_facts.

(** ** The database access layer *)

Section database_manager.
Import Notions DatabaseManager.

(** C8.  A statement whose leading verb is an SQL verb other than SELECT
    is refused by [select] with "Query must be a SELECT statement" and the
    world is left as it was: no connection is opened.  A SELECT that the
    store runs without error and that matches no row returns the empty
    list. *)
Theorem select_checks_statement_kind :
  (∀ query v values w,
     leading_verb query v → v ≠ SELECT →
     select query values w
     = (Raise (DatabaseError "Query must be a SELECT statement"), w))
  ∧
  (∀ query values w c w',
     leading_verb query SELECT →
     sqlite_execute query (or_empty values) w = (inr c, w') →
     fetched c = [] →
     select query values w = (Ok [], w')).
Proof.
  split.
  - intros query v values w Hv Hne. unfold select.
    by rewrite (select_guard_other query v Hv Hne).
  - intros query values w c w' Hv Hrun Hrows. unfold select.
    rewrite (select_guard_select query Hv). simpl.
    unfold bind, _execute. rewrite Hrun.
    rewrite (select_guard_select query Hv). unfold ret, fetchall. simpl.
    by rewrite Hrows.
Qed.

Lemma select_checks_statement_kind_witness :
  select "  update users SET hashed_password = ? WHERE id = ?" None
    (Reference.world_of [] [])
  = (Raise (DatabaseError "Query must be a SELECT statement"),
     Reference.world_of [] [])
  ∧ select "SELECT date, close FROM nvidia_stock WHERE close < ?"
      (Some [PInt 0]) (Reference.world_of [] [])
    = (Ok [], connect (Reference.world_of [] [])).
Proof.
  split.
  - apply (proj1 select_checks_statement_kind _ UPDATE); [reflexivity|discriminate].
  - apply (proj2 select_checks_statement_kind _ _ _ quiet);
      reflexivity.
Defined.

(** The guard of [select] is a test on the first six characters, so it also
    passes text that merely begins like the verb. *)
Example select_guard_is_a_prefix_test :
  has_verb "selection" "SELECT" = true ∧ has_verb "WITH t AS (SELECT 1) SELECT * FROM t" "SELECT" = false.
Proof. split; reflexivity. Qed.

(** [get_table_info] hands a PRAGMA to [select], which refuses it. *)
Example get_table_info_of_existing_table :
  fst (get_table_info "users"
         (Reference.world_of []
            [Answer {| fetched := [{[ "name" := PStr "users" ]}];
                       cur_lastrowid := None; cur_rowcount := -1 |}]))
  = Raise (DatabaseError "Query must be a SELECT statement").
Proof. reflexivity. Qed.

Lemma list_of_tuples_batch tuples :
  list_of_tuples (batch_of tuples) = Some (PTuple <$> tuples).
Proof.
  unfold list_of_tuples, batch_of.
  assert (forallb is_tuple (PTuple <$> tuples) = true) as ->; [|done].
  induction tuples; simpl; auto.
Qed.

Lemma list_of_tuples_inv values_list items :
  list_of_tuples values_list = Some items →
  ∃ tuples, values_list = batch_of tuples.
Proof.
  destruct values_list as [| | | | |l]; try done. simpl.
  destruct (forallb is_tuple l) eqn:Hall; [|done]. intros _.
  induction l as [|v l IH]; [by exists []|].
  simpl in Hall. apply andb_prop in Hall as [Hv Hl].
  destruct (IH Hl) as [tuples Ht]. destruct v as [| | | |t|]; try done.
  exists (t :: tuples). unfold batch_of in *. injection Ht as ->. done.
Qed.

(** C7, as the code has it.  On an INSERT statement, [insert_many] refuses
    a value that is not a list of tuples with "Values must be a list of
    tuples" before any connection is opened; a list of tuples, whatever
    their arities, passes the guard: one connection is opened and the
    outcome is the store's.  On a statement of another kind it fails with
    "Query must be an INSERT statement", whatever the values. *)
Theorem insert_many_checks_tuples_only :
  (∀ query values_list w,
     leading_verb query INSERT →
     (∀ tuples, values_list ≠ batch_of tuples) →
     insert_many query values_list w
     = (Raise (DatabaseError "Values must be a list of tuples"), w))
  ∧
  (∀ query tuples w,
     leading_verb query INSERT →
     insert_many query (batch_of tuples) w
     = (match fst (sqlite_executemany query (PTuple <$> tuples) w) with
        | inr n => Ok n
        | inl e => Raise (batch_error e)
        end, snd (sqlite_executemany query (PTuple <$> tuples) w))
     ∧ connections (snd (insert_many query (batch_of tuples) w))
       = S (connections w))
  ∧
  (∀ query v values_list w,
     leading_verb query v → v ≠ INSERT →
     insert_many query values_list w
     = (Raise (DatabaseError "Query must be an INSERT statement"), w)).
Proof.
  split; [|split].
  - intros query values_list w Hq%insert_guard_insert Hbad.
    unfold insert_many. rewrite Hq. simpl.
    destruct (list_of_tuples values_list) as [items|] eqn:Hl; [|done].
    destruct (list_of_tuples_inv _ _ Hl) as [tuples ->].
    by destruct (Hbad tuples).
  - intros query tuples w Hq%insert_guard_insert. unfold insert_many.
    rewrite Hq, list_of_tuples_batch. cbn [negb].
    assert (connections (snd (sqlite_executemany query (PTuple <$> tuples) w))
            = S (connections w)) as Hconn.
    { unfold sqlite_executemany.
      destruct (head (env w)) as [[e|c]|]; simpl; try done;
        destruct (String.eqb query USERS_INSERT); simpl; try done;
        by destruct (users_batch _ _). }
    destruct (sqlite_executemany query (PTuple <$> tuples) w) as [[e|n] w'];
      simpl in *; done.
  - intros query v values_list w Hv Hne. unfold insert_many.
    by rewrite (insert_guard_other query v Hv Hne).
Qed.

Lemma insert_many_checks_tuples_only_witness :
  insert_many "INSERT INTO nvidia_stock (date, close) VALUES (?, ?)"
    (PTuple [PStr "2024-01-02"; PInt 48]) (Reference.world_of [] [])
  = (Raise (DatabaseError "Values must be a list of tuples"),
     Reference.world_of [] [])
  ∧ connections
      (snd (insert_many "INSERT INTO nvidia_stock (date, close) VALUES (?, ?)"
              (batch_of [[PStr "2024-01-02"; PInt 48]; [PStr "2024-01-03"]])
              (Reference.world_of [] [])))
    = 1%nat
  ∧ insert_many "DELETE FROM nvidia_stock WHERE date = ?"
      (batch_of [[PStr "2024-01-02"]]) (Reference.world_of [] [])
    = (Raise (DatabaseError "Query must be an INSERT statement"),
       Reference.world_of [] []).
Proof.
  split; [|split].
  - apply (proj1 insert_many_checks_tuples_only); [reflexivity|discriminate].
  - apply (proj1 (proj2 insert_many_checks_tuples_only)); reflexivity.
  - apply (proj2 (proj2 insert_many_checks_tuples_only) _ DELETE);
      [reflexivity|discriminate].
Defined.

(** C7, as stated, fails.  A batch whose tuples differ in arity is not
    refused before the store is reached: here the store itself refuses the
    second tuple, and the failure reported is the store's.  And a batch
    with an element that is no tuple, sent with a statement that is not an
    INSERT, fails on the statement kind, not on its shape. *)
Lemma insert_many_uneven_batch_reaches_store :
  (¬ same_arity [[PStr "2024-01-02"; PInt 48]; [PStr "2024-01-03"]]
   ∧ insert_many "INSERT INTO nvidia_stock (date, close) VALUES (?, ?)"
       (batch_of [[PStr "2024-01-02"; PInt 48]; [PStr "2024-01-03"]])
       (Reference.world_of []
          [Fail (SqliteDatabaseError
             "Incorrect number of bindings supplied. The current statement uses 2, and there are 1 supplied.")])
     = (Raise (DatabaseError
                 "Database error: Incorrect number of bindings supplied. The current statement uses 2, and there are 1 supplied."),
        connect (Reference.world_of []
          [Fail (SqliteDatabaseError
             "Incorrect number of bindings supplied. The current statement uses 2, and there are 1 supplied.")])))
  ∧ insert_many "UPDATE nvidia_stock SET close = ?"
      (PList [PInt 48]) (Reference.world_of [] [])
    = (Raise (DatabaseError "Query must be an INSERT statement"),
       Reference.world_of [] []).
Proof.
  split; [split|]; [|reflexivity..].
  intros [n Hn]. inversion Hn as [|? ? H1 H2]; subst.
  inversion H2 as [|? ? H3 _]; subst. simpl in H3. discriminate.
Qed.

(** No operation assigns the [connection] attribute. *)
Lemma execute_keeps_manager query values w :
  manager (snd (_execute query values w)) = manager w.
Proof.
  unfold _execute, sqlite_execute.
  destruct (head (env w)) as [[e|c]|]; simpl; try done;
    by destruct (run_statement _ _ _ _).
Qed.

Lemma bind_keeps_manager {A B} (m : M A) (k : A → M B) w :
  manager (snd (m w)) = manager w →
  (∀ a w', manager (snd (k a w')) = manager w') →
  manager (snd (bind m k w)) = manager w.
Proof.
  intros Hm Hk. unfold bind. destruct (m w) as [[a|e] w'] eqn:E; simpl in *.
  - by rewrite Hk.
  - done.
Qed.

Lemma select_keeps_manager query values w :
  manager (snd (select query values w)) = manager w.
Proof.
  unfold select. destruct (has_verb query "SELECT"); simpl; [|done].
  apply bind_keeps_manager; [apply execute_keeps_manager|done].
Qed.

Lemma after_keeps_manager w c : manager (after w c) = manager w.
Proof.
  destruct c; simpl.
  - unfold insert. destruct (has_verb query "INSERT"); simpl; [|done].
    apply bind_keeps_manager; [apply execute_keeps_manager|].
    intros a w'. by destruct (lastrowid a).
  - unfold insert_many. destruct (has_verb query "INSERT"); simpl; [|done].
    destruct (list_of_tuples values_list); [|done].
    unfold sqlite_executemany.
    destruct (head (env w)) as [[e|c]|]; simpl; try done;
      destruct (String.eqb query USERS_INSERT); simpl; try done;
      by destruct (users_batch _ _).
  - apply select_keeps_manager.
  - unfold update. destruct (has_verb query "UPDATE"); simpl; [|done].
    apply bind_keeps_manager; [apply execute_keeps_manager|done].
  - unfold delete. destruct (has_verb query "DELETE"); simpl; [|done].
    apply bind_keeps_manager; [apply execute_keeps_manager|done].
  - unfold table_exists. destruct (_ || _); [done|].
    destruct (negb _); [done|].
    apply bind_keeps_manager; [apply select_keeps_manager|done].
  - unfold get_table_info. apply bind_keeps_manager.
    + unfold table_exists. destruct (_ || _); [done|].
      destruct (negb _); [done|].
      apply bind_keeps_manager; [apply select_keeps_manager|done].
    + intros found w'. destruct (negb found); [done|].
      apply select_keeps_manager.
  - unfold close. by destruct (connection (manager w)).
Qed.

(** C10.  After [__init__], and after any sequence of the operations the
    class exposes, the object has no [connection] attribute and [close]
    raises [AttributeError], leaving the world as it is. *)
Theorem close_always_fails :
  ∀ (path : string) (w : world) (calls : list call),
    let w' := foldl after (snd (__init__ path w)) calls in
    connection (manager w') = None
    ∧ close w'
      = (Raise (AttributeError
                  "'DatabaseManager' object has no attribute 'connection'"),
         w').
Proof.
  intros path w calls.
  assert (∀ w0, connection (manager w0) = None →
                connection (manager (foldl after w0 calls)) = None) as Hinv.
  { induction calls as [|c calls IH]; intros w0 H0; simpl; [done|].
    apply IH. by rewrite after_keeps_manager. }
  specialize (Hinv (snd (__init__ path w)) eq_refl).
  cbv zeta. split; [exact Hinv|]. unfold close. by rewrite Hinv.
Qed.

End database_manager.

(** ** The credential store *)

Section credential_store.
Import Notions DatabaseManager AuthService.

(** One lookup: a connection is used; the answer is the first record of
    that name, or nothing when the store is down. *)
Lemma get_user_eval u w :
  get_user u w
  = (Ok (if store_down w then None else info_of <$> stored u (users w)),
     connect w).
Proof.
  unfold get_user, try_except, bind, select, store_down.
  change (has_verb USERS_SELECT "SELECT") with true. cbn [negb].
  unfold bind, _execute, sqlite_execute.
  destruct (head (env w)) as [[e|c]|]; try done;
    change (has_verb USERS_SELECT "SELECT") with true;
    unfold run_statement; rewrite String.eqb_refl; cbn [or_empty];
    unfold stored; destruct (List.filter (named u) (users w)) as [|r l];
    done.
Qed.

Lemma faultless_up w : faultless (env w) = true → store_down w = false.
Proof. unfold store_down. by destruct (env w) as [|[e|c] l]. Qed.

Lemma faultless_connect w :
  faultless (env w) = true → faultless (env (connect w)) = true.
Proof.
  simpl. destruct (env w) as [|r l]; [done|]. simpl.
  by intros [_ ?]%andb_prop.
Qed.

Lemma stored_Some u us r :
  stored u us = Some r → World.username r = u ∧ taken u us.
Proof.
  unfold stored, taken. intros Hs.
  assert (r ∈ List.filter (named u) us) as Hin.
  { destruct (List.filter (named u) us); simplify_eq/=. left. }
  apply list_elem_of_In, filter_In in Hin as [Hin Hn].
  apply String.eqb_eq in Hn. split; [done|].
  apply list_elem_of_fmap. exists r. split; [done|]. by apply list_elem_of_In.
Qed.

Lemma stored_None u us : stored u us = None → ¬ taken u us.
Proof.
  unfold stored, taken. intros Hs Hin.
  apply list_elem_of_fmap in Hin as (r & -> & Hr).
  assert (r ∈ List.filter (named (World.username r)) us) as Hf.
  { apply list_elem_of_In, filter_In. split; [by apply list_elem_of_In|].
    apply String.eqb_refl. }
  destruct (List.filter _ us); [by apply elem_of_nil in Hf|done].
Qed.

Lemma not_taken_stored u us : ¬ taken u us → stored u us = None.
Proof.
  intros Hn. destruct (stored u us) as [r|] eqn:Hs; [|done].
  by apply stored_Some in Hs as [_ ?].
Qed.

Lemma insert_user_eval u h w :
  store_down w = false →
  insert_user u h w
  = (Ok (Some {| created_id := next_rowid (users w); created_username := u |}),
     set_users
       (users w ++ [{| id := next_rowid (users w); World.username := u;
                       hashed_password := h |}])%list (connect w)).
Proof.
  unfold store_down, insert_user, bind, insert. intros Hup.
  change (has_verb USERS_INSERT "INSERT") with true. cbn [negb].
  unfold bind, _execute, sqlite_execute.
  destruct (head (env w)) as [[e|c]|]; try done;
    unfold run_statement;
    change (String.eqb USERS_INSERT USERS_SELECT) with false;
    rewrite String.eqb_refl; done.
Qed.

(** What the probing loop leaves and finds: it never raises and touches
    neither the table nor the salt source; the suffix it returns has every
    smaller one taken and, the store being up, is itself free; it runs out
    of probes only when every name it tried is taken. *)
Lemma next_free_spec fuel base : ∀ s w,
  ∃ res w', next_free fuel base s w = (Ok res, w')
    ∧ users w' = users w ∧ seed w' = seed w
    ∧ (faultless (env w) = true → faultless (env w') = true)
    ∧ match res with
      | Some k =>
          (s ≤ k)%nat
          ∧ (∀ j, (s ≤ j < k)%nat → taken (base +:+ pretty j) (users w))
          ∧ (faultless (env w) = true → ¬ taken (base +:+ pretty k) (users w))
      | None =>
          ∀ j, (s ≤ j < s + fuel)%nat → taken (base +:+ pretty j) (users w)
      end.
Proof.
  induction fuel as [|fuel IH]; intros s w.
  - exists None, w. repeat split; try done. intros j Hj. lia.
  - cbn [next_free]. unfold bind at 1. rewrite get_user_eval.
    destruct (store_down w) eqn:Hd.
    + exists (Some s), (connect w). repeat split; try done.
      * apply faultless_connect.
      * intros j Hj. lia.
      * intros Hf. by rewrite faultless_up in Hd.
    + destruct (stored (base +:+ pretty s) (users w)) as [r|] eqn:Hs; simpl.
      * destruct (IH (S s) (connect w))
          as (res & w' & -> & Hu & Hsd & Hf & Hres).
        exists res, w'. repeat split; try done.
        { intros Hw. by apply Hf, faultless_connect. }
        apply stored_Some in Hs as [_ Hs].
        destruct res as [k|].
        -- destruct Hres as (Hk & Hbelow & Hfree). repeat split; [lia| |].
           ++ intros j Hj. destruct (decide (j = s)) as [->|]; [done|].
              apply Hbelow. lia.
           ++ intros Hw. by apply Hfree, faultless_connect.
        -- intros j Hj. destruct (decide (j = s)) as [->|]; [done|].
           apply Hres. lia.
      * exists (Some s), (connect w). repeat split; try done.
        -- apply faultless_connect.
        -- intros j Hj. lia.
        -- intros _. by apply stored_None.
Qed.

(** A table has too few records to hold a run of names one longer. *)
Lemma names_outnumber_records base (us : list user_row) :
  ¬ ∀ j, (1 ≤ j < 1 + S (length us))%nat → taken (base +:+ pretty j) us.
Proof.
  intros Hall.
  set (names := (λ j : nat, base +:+ pretty j) <$> seq 1 (S (length us))).
  assert (NoDup names) as Hnd.
  { apply NoDup_fmap_2; [|apply NoDup_seq].
    intros i j Hij. apply String.app_inj in Hij. by apply (inj pretty). }
  assert (names ⊆+ World.username <$> us) as Hsub.
  { apply NoDup_submseteq; [done|]. intros x Hx.
    apply list_elem_of_fmap in Hx as (j & -> & Hj).
    apply elem_of_seq in Hj. apply Hall. lia. }
  apply submseteq_length in Hsub. unfold names in Hsub.
  rewrite !length_fmap, length_seq in Hsub. lia.
Qed.

(** The loop terminates: with more probes than the table has records it
    returns a suffix, whatever the store does. *)
Lemma next_free_enough base w fuel :
  (length (users w) < fuel)%nat →
  ∃ k w', next_free fuel base 1 w = (Ok (Some k), w').
Proof.
  intros Hfuel.
  destruct (next_free_spec fuel base 1 w)
    as ([k|] & w' & Hrun & _ & _ & _ & Hres).
  - by exists k, w'.
  - destruct (names_outnumber_records base (users w)).
    intros j Hj. apply Hres. lia.
Qed.

(** More probes than needed change nothing. *)
Lemma next_free_more_fuel fuel base : ∀ fuel' s w k w',
  next_free fuel base s w = (Ok (Some k), w') →
  (fuel ≤ fuel')%nat →
  next_free fuel' base s w = (Ok (Some k), w').
Proof.
  induction fuel as [|fuel IH]; intros fuel' s w k w' Hrun Hle; [done|].
  destruct fuel' as [|fuel']; [lia|].
  revert Hrun. cbn [next_free]. unfold bind. rewrite get_user_eval.
  destruct (if store_down w then None else info_of <$> stored _ (users w));
    [|done].
  intros Hrun. apply IH; [done|lia].
Qed.

End credential_store.

(** ** Registration and login *)

Section registration_and_login.
Import Notions DatabaseManager JwtHandler AuthService AuthRoutes.
Context {jose : Jose} {crypt : CryptContext} {settings : Settings}.

(** C3.  When the store is up and the record it returns for the name
    holds a hash that verifies against the password, [create_user] returns
    [None], the table is unchanged, and [register] raises 400 "User already
    exists". *)
Theorem exact_reregistration_is_refused :
  ∀ (data : AuthSchema.UserRequest) (w : world) (r : user_row),
    store_down w = false →
    stored (AuthSchema.username data) (users w) = Some r →
    pwd_verify (AuthSchema.password data) (hashed_password r) = Some true →
    create_user (AuthSchema.username data) (AuthSchema.password data) w
    = (Ok None, next_seed (connect w))
    ∧ users (next_seed (connect w)) = users w
    ∧ register data w
      = (Raise (HTTPException 400 "User already exists"),
         next_seed (connect w)).
Proof.
  intros [u p] w r Hup Hst Hver. simpl in *.
  assert (create_user u p w = (Ok None, next_seed (connect w))) as Hc.
  { unfold create_user, try_except, bind. rewrite get_user_eval, Hup, Hst.
    simpl. unfold pwd_context_hash. simpl.
    destruct (pwd_hash p (seed w)); [|done].
    unfold pwd_context_verify. by rewrite Hver. }
  split; [done|]. split; [done|].
  unfold register, bind. simpl. by rewrite Hc.
Qed.

(** C4.  When the store stays up, the name is held by a record whose hash
    does not verify against the password, and the password hashes to [h]:
    [create_user] returns the name with the least suffix [k ≥ 1] that no
    record bears, every smaller suffix being taken, and the table is the
    old one followed by one record under that name with hash [h]. *)
Theorem collision_takes_first_free_suffix :
  ∀ (u p : string) (w : world) (r : user_row) (h : string),
    faultless (env w) = true →
    stored u (users w) = Some r →
    pwd_verify p (hashed_password r) = Some false →
    pwd_hash p (seed w) = Some h →
    ∃ (k : nat) (w' : world),
      (1 ≤ k)%nat
      ∧ (∀ j, (1 ≤ j < k)%nat → taken (u +:+ pretty j) (users w))
      ∧ ¬ taken (u +:+ pretty k) (users w)
      ∧ create_user u p w
        = (Ok (Some {| created_id := next_rowid (users w);
                       created_username := u +:+ pretty k |}), w')
      ∧ users w'
        = (users w ++ [{| id := next_rowid (users w);
                          World.username := u +:+ pretty k;
                          hashed_password := h |}])%list.
Proof.
  intros u p w r h Hf Hst Hver Hh.
  set (w1 := next_seed (connect w)).
  assert (faultless (env w1) = true) as Hf1 by by apply faultless_connect.
  destruct (next_free_spec (S (length (users w1))) u 1 w1)
    as (res & w2 & Hrun & Hu & _ & Hf2 & Hres).
  destruct res as [k|]; last first.
  { destruct (names_outnumber_records u (users w1)). intros j Hj.
    apply Hres. lia. }
  destruct Hres as (Hk & Hbelow & Hfree).
  exists k, (set_users
    (users w2 ++ [{| id := next_rowid (users w2);
                     World.username := u +:+ pretty k;
                     hashed_password := h |}])%list (connect w2)).
  repeat split; [done|done|by apply Hfree| |by rewrite Hu].
  unfold create_user, try_except, bind.
  rewrite get_user_eval, (faultless_up w Hf), Hst. cbn -[next_free].
  unfold pwd_context_hash. cbn [seed connect]. rewrite Hh.
  change (next_seed (connect w)) with w1.
  unfold pwd_context_verify. rewrite Hver. cbn -[next_free]. unfold bind.
  change (S (length (users w))) with (S (length (users w1))).
  rewrite Hrun, insert_user_eval by by apply faultless_up, Hf2.
  by rewrite Hu.
Qed.

(** C2, on the code.  When the store fails on the connection that login
    opens, [login] raises 401 "Invalid username or password": [get_user]
    has turned the failure into "no such user" before [authenticate_user]
    could map it to its 500. *)
Theorem login_storage_failure_is_reported_as_bad_credentials :
  ∀ (data : AuthSchema.UserRequest) (w : world) (e : sqlite_error)
    (rest : list reply),
    env w = Fail e :: rest →
    login data w
    = (Raise (HTTPException 401 "Invalid username or password"), connect w).
Proof.
  intros [u p] w e rest Henv.
  unfold login, bind, authenticate_user, try_except, bind.
  rewrite get_user_eval. unfold store_down. by rewrite Henv.
Qed.

(** C6.  A login under a name no record bears and a login under a name
    whose record does not verify the password end alike, whatever the store
    does: both raise 401 "Invalid username or password". *)
Theorem login_failures_are_indistinguishable :
  ∀ (d1 d2 : AuthSchema.UserRequest) (w1 w2 : world) (r : user_row),
    ¬ taken (AuthSchema.username d1) (users w1) →
    stored (AuthSchema.username d2) (users w2) = Some r →
    verify_password (AuthSchema.password d2) (hashed_password r) = false →
    fst (login d1 w1)
    = Raise (HTTPException 401 "Invalid username or password")
    ∧ fst (login d2 w2) = fst (login d1 w1).
Proof.
  intros [u1 p1] [u2 p2] w1 w2 r Hun Hst Hver. simpl in *.
  assert (fst (login {| AuthSchema.username := u1;
                        AuthSchema.password := p1 |} w1)
    = Raise (HTTPException 401 "Invalid username or password")) as Hfirst.
  { unfold login, bind, authenticate_user, try_except, bind. simpl.
    rewrite get_user_eval, (not_taken_stored _ _ Hun).
    by destruct (store_down w1). }
  split; [done|]. rewrite Hfirst.
  unfold login, bind, authenticate_user, try_except, bind. simpl.
  rewrite get_user_eval, Hst. destruct (store_down w2); [done|].
  simpl. by rewrite Hver.
Qed.

End registration_and_login.

Section registration_and_login_examples.
Import Notions DatabaseManager JwtHandler AuthService AuthRoutes Reference.

Lemma exact_reregistration_is_refused_witness :
  create_user "alice" "p1" (world_of [alice] [])
  = (Ok None, next_seed (connect (world_of [alice] [])))
  ∧ users (next_seed (connect (world_of [alice] []))) = [alice]
  ∧ register (request "alice" "p1") (world_of [alice] [])
    = (Raise (HTTPException 400 "User already exists"),
       next_seed (connect (world_of [alice] []))).
Proof.
  apply (exact_reregistration_is_refused (request "alice" "p1")
           (world_of [alice] []) alice); reflexivity.
Defined.

Lemma collision_takes_first_free_suffix_witness :
  ∃ (k : nat) (w' : world),
    (1 ≤ k)%nat
    ∧ (∀ j, (1 ≤ j < k)%nat →
            taken ("alice" +:+ pretty j) [alice; alice1])
    ∧ ¬ taken ("alice" +:+ pretty k) [alice; alice1]
    ∧ create_user "alice" "p3" (world_of [alice; alice1] [])
      = (Ok (Some {| created_id := 3;
                     created_username := "alice" +:+ pretty k |}), w')
    ∧ users w'
      = [alice; alice1;
         {| id := 3; World.username := "alice" +:+ pretty k;
            hashed_password := "7:p3" |}].
Proof.
  apply (collision_takes_first_free_suffix "alice" "p3"
           (world_of [alice; alice1] []) alice "7:p3"); reflexivity.
Defined.

(** The same registration, run: the name returned is [alice2]. *)
Example collision_run :
  fst (create_user "alice" "p3" (world_of [alice; alice1] []))
  = Ok (Some {| created_id := 3; created_username := "alice2" |}).
Proof. vm_compute. reflexivity. Qed.

(** A probe that the store fails is read as "name free": the loop stops at
    a suffix a record bears, and a second [alice1] is inserted. *)
Example collision_run_store_failing_once :
  World.username <$>
    users (snd (create_user "alice" "p3"
                  (world_of [alice; alice1]
                     [Answer quiet; Fail (OperationalError "disk I/O error")])))
  = ["alice"; "alice1"; "alice1"].
Proof. vm_compute. reflexivity. Qed.

Lemma login_storage_failure_is_reported_as_bad_credentials_witness :
  login (request "alice" "p1")
    (world_of [alice] [Fail (OperationalError "database is locked")])
  = (Raise (HTTPException 401 "Invalid username or password"),
     connect (world_of [alice] [Fail (OperationalError "database is locked")])).
Proof.
  apply (login_storage_failure_is_reported_as_bad_credentials
           (request "alice" "p1") _ (OperationalError "database is locked") []).
  reflexivity.
Defined.

(** What the handler of [authenticate_user] would have made of the same
    failure, had it reached it. *)
Example login_correct_credentials_store_down :
  fst (authenticate_user "alice" "p1"
         (world_of [alice] [Fail (OperationalError "database is locked")]))
  = Raise (HTTPException 401 "Invalid username or password")
  ∧ fst (DatabaseManager.select USERS_SELECT (Some [PStr "alice"])
           (world_of [alice] [Fail (OperationalError "database is locked")]))
    = Raise (DatabaseError "Database is locked - try again later").
Proof. split; reflexivity. Qed.

Lemma login_failures_are_indistinguishable_witness :
  fst (login (request "bob" "p1") (world_of [alice] []))
  = Raise (HTTPException 401 "Invalid username or password")
  ∧ fst (login (request "alice" "wrong") (world_of [alice] []))
    = fst (login (request "bob" "p1") (world_of [alice] [])).
Proof.
  apply (login_failures_are_indistinguishable (request "bob" "p1")
           (request "alice" "wrong") _ _ alice); [|reflexivity..].
  intros Hin. apply list_elem_of_In in Hin. simpl in Hin.
  destruct Hin as [Hin|[]]. discriminate.
Defined.

(** The end-to-end run of the specification: alice registers, registers
    again under another password, then logs in. *)
Example end_to_end :
  let w0 := world_of [] [] in
  let w1 := snd (register (request "alice" "p1") w0) in
  let w2 := snd (register (request "alice" "p2") w1) in
  World.username <$> users w2 = ["alice"; "alice1"]
  ∧ fst (create_user "alice" "p2" w1)
    = Ok (Some {| created_id := 2; created_username := "alice1" |})
  ∧ fst (authenticate_user "alice" "p1" w2) = Ok "alice"
  ∧ fst (authenticate_user "alice1" "p2" w2) = Ok "alice1"
  ∧ fst (authenticate_user "alice" "wrong" w2)
    = Raise (HTTPException 401 "Invalid username or password")
  ∧ fst (create_user "alice" "p1" w2) = Ok None.
Proof. vm_compute. repeat split; reflexivity. Qed.

End registration_and_login_examples.

(** ** Tokens *)

Section tokens.
Import Notions JwtHandler AuthService AuthRoutes.
Context {jose : Jose} {settings : Settings}.

Lemma eq_str_true (v : option pyval) s : eq_str v s = true → v = Some (PStr s).
Proof.
  destruct v as [[| | |t| |]|]; try done. simpl.
  by intros ->%String.eqb_eq.
Qed.

(** A string claim survives signing and decoding. *)
Lemma decoded_claim (c payload : claims) now key s :
  jwt_decode (jwt_encode c) now = Some payload →
  c !! key = Some (PStr s) → payload !! key = Some (PStr s).
Proof.
  intros Hd Hc. apply jwt_decode_encode in Hd as ->.
  by rewrite lookup_fmap, Hc.
Qed.

(** The two ways a [datetime] sum and a [timedelta] can go. *)
Lemma datetime_add_cases now delta w :
  (representable (now + delta)
   ∧ datetime_add now delta w = (Ok (now + delta), w))
  ∨ (¬ representable (now + delta)
     ∧ datetime_add now delta w = (Raise OverflowError, w)).
Proof.
  unfold datetime_add, representable.
  destruct (DATETIME_MIN <=? now + delta) eqn:Hlo;
    destruct (now + delta <=? DATETIME_MAX) eqn:Hhi; simpl;
    [left|right..]; (split; [lia|done]).
Qed.

Lemma timedelta_cases seconds w :
  (constructible seconds ∧ timedelta seconds w = (Ok seconds, w))
  ∨ (¬ constructible seconds
     ∧ timedelta seconds w = (Raise OverflowError, w)).
Proof.
  unfold timedelta, constructible.
  destruct (- TIMEDELTA_DAYS <=? seconds / 86400) eqn:Hlo;
    destruct (seconds / 86400 <=? TIMEDELTA_DAYS) eqn:Hhi; simpl;
    [left|right..]; (split; [lia|done]).
Qed.

Lemma create_access_token_cases data delta w :
  (representable (clock w + delta_or delta (minutes 15))
   ∧ create_access_token data delta w
     = (Ok (jwt_encode
              (<[ "exp" := PInt (clock w + delta_or delta (minutes 15)) ]>
                 data)), w))
  ∨ (¬ representable (clock w + delta_or delta (minutes 15))
     ∧ create_access_token data delta w = (Raise OverflowError, w)).
Proof.
  unfold create_access_token, bind, gets.
  destruct (datetime_add_cases (clock w) (delta_or delta (minutes 15)) w)
    as [[Hr ->]|[Hr ->]]; [by left|by right].
Qed.

Lemma create_refresh_token_cases data delta w :
  (representable (clock w + delta_or delta (days 7))
   ∧ create_refresh_token data delta w
     = (Ok (jwt_encode
              (<[ "exp" := PInt (clock w + delta_or delta (days 7)) ]>
                 (<[ "type" := PStr "refresh" ]> data))), w))
  ∨ (¬ representable (clock w + delta_or delta (days 7))
     ∧ create_refresh_token data delta w = (Raise OverflowError, w)).
Proof.
  unfold create_refresh_token, bind, gets.
  destruct (datetime_add_cases (clock w) (delta_or delta (days 7)) w)
    as [[Hr ->]|[Hr ->]]; [by left|by right].
Qed.

(** What was issued, when something was. *)
Lemma create_access_token_inv data delta w token w1 :
  create_access_token data delta w = (Ok token, w1) →
  token = jwt_encode
            (<[ "exp" := PInt (clock w + delta_or delta (minutes 15)) ]> data)
  ∧ w1 = w.
Proof.
  destruct (create_access_token_cases data delta w) as [[_ ->]|[_ ->]];
    [|done]. by intros [= <- <-].
Qed.

Lemma create_refresh_token_inv data delta w token w1 :
  create_refresh_token data delta w = (Ok token, w1) →
  token = jwt_encode
            (<[ "exp" := PInt (clock w + delta_or delta (days 7)) ]>
               (<[ "type" := PStr "refresh" ]> data))
  ∧ w1 = w.
Proof.
  destruct (create_refresh_token_cases data delta w) as [[_ ->]|[_ ->]];
    [|done]. by intros [= <- <-].
Qed.

Lemma seven_days_constructible : constructible (days 7).
Proof. unfold constructible, days, TIMEDELTA_DAYS. by vm_compute. Qed.

(** The pair of [register] and [login]: issued when both expiries can be
    represented, and an [OverflowError] otherwise. *)
Lemma token_pair_cases username w :
  let access_lifetime :=
    delta_or (Some (minutes ACCESS_TOKEN_EXPIRE_MINUTES)) (minutes 15) in
  (constructible (minutes ACCESS_TOKEN_EXPIRE_MINUTES)
   ∧ representable (clock w + access_lifetime)
   ∧ representable (clock w + days 7)
   ∧ token_pair username w
     = (Ok (AuthSchema.make
              (jwt_encode
                 {[ "sub" := PStr username; "type" := PStr "access";
                    "exp" := PInt (clock w + access_lifetime) ]})
              (jwt_encode
                 {[ "sub" := PStr username; "type" := PStr "refresh";
                    "exp" := PInt (clock w + days 7) ]})), w))
  ∨ (¬ (constructible (minutes ACCESS_TOKEN_EXPIRE_MINUTES)
        ∧ representable (clock w + access_lifetime)
        ∧ representable (clock w + days 7))
     ∧ token_pair username w = (Raise OverflowError, w)).
Proof.
  cbv zeta. unfold token_pair, bind.
  destruct (timedelta_cases (minutes ACCESS_TOKEN_EXPIRE_MINUTES) w)
    as [[Hc ->]|[Hc ->]]; cbv iota beta; [|right; split; [tauto|done]].
  destruct (create_access_token_cases
              {[ "sub" := PStr username; "type" := PStr "access" ]}
              (Some (minutes ACCESS_TOKEN_EXPIRE_MINUTES)) w)
    as [[Ha ->]|[Ha ->]]; cbv iota beta; [|right; split; [tauto|done]].
  destruct (timedelta_cases (days 7) w) as [[_ ->]|[Hd _]];
    [|by destruct Hd; apply seven_days_constructible].
  cbv iota beta.
  destruct (create_access_token_cases
              {[ "sub" := PStr username; "type" := PStr "refresh" ]}
              (Some (days 7)) w)
    as [[Hr ->]|[Hr ->]]; cbv iota beta; [left|right; split; [tauto|done]].
  split; [done|]. split; [done|]. split; [exact Hr|reflexivity].
Qed.

Lemma verify_refresh_token_inv token w payload :
  fst (verify_refresh_token token w) = Ok payload →
  verify_refresh_token token w = (Ok payload, w)
  ∧ jwt_decode token (clock w) = Some payload
  ∧ payload !! "type" = Some (PStr "refresh")
  ∧ is_Some (payload !! "sub").
Proof.
  unfold verify_refresh_token, bind, gets.
  destruct (jwt_decode token (clock w)) as [p|]; [|done].
  destruct (eq_str (p !! "type") "refresh") eqn:He; [|done]. simpl.
  destruct (p !! "sub") eqn:Hs; [|done]. intros [= <-].
  rewrite Hs. repeat split; [by apply eq_str_true|by eexists].
Qed.

Lemma verify_refresh_rejects token w (kind : string) :
  (∀ payload, jwt_decode token (clock w) = Some payload →
              payload !! "type" = Some (PStr kind)) →
  kind ≠ "refresh" →
  unauthenticated (fst (verify_refresh_token token w)).
Proof.
  intros Hk Hne. unfold verify_refresh_token, bind, gets.
  destruct (jwt_decode token (clock w)) as [payload|] eqn:Hd; [|by eexists].
  rewrite (Hk payload eq_refl). simpl.
  destruct (String.eqb kind "refresh") eqn:He; [|by eexists].
  by apply String.eqb_eq in He.
Qed.

Lemma get_current_user_rejects token w (kind : string) :
  (∀ payload, jwt_decode token (clock w) = Some payload →
              payload !! "type" = Some (PStr kind)) →
  kind ≠ "access" →
  unauthenticated (fst (get_current_user token w)).
Proof.
  intros Hk Hne. unfold get_current_user, bind, decode_token, bind, gets, ret.
  destruct (jwt_decode token (clock w)) as [payload|] eqn:Hd; [|by eexists].
  rewrite (Hk payload eq_refl). simpl.
  destruct (String.eqb kind "access") eqn:He; [|by eexists].
  by apply String.eqb_eq in He.
Qed.

(** C1.  A token issued over claims with [type = "access"] is refused by
    [verify_refresh_token] with a 401, at any time; a token issued over
    claims with [type = "refresh"], by [create_access_token] or by
    [create_refresh_token], is refused by [get_current_user] with a 401.
    Either check reads the [type] claim of the decoded payload: whenever one
    of them accepts a token, the payload carries the kind it asks for. *)
Theorem token_kinds_are_kept_apart :
  (∀ data delta w token w1 w',
     data !! "type" = Some (PStr "access") →
     create_access_token data delta w = (Ok token, w1) →
     unauthenticated (fst (verify_refresh_token token w')))
  ∧ (∀ data delta w token w1 w',
       data !! "type" = Some (PStr "refresh") →
       create_access_token data delta w = (Ok token, w1) →
       unauthenticated (fst (get_current_user token w')))
  ∧ (∀ data delta w token w1 w',
       create_refresh_token data delta w = (Ok token, w1) →
       unauthenticated (fst (get_current_user token w')))
  ∧ (∀ token w user,
       fst (get_current_user token w) = Ok user →
       ∃ payload, jwt_decode token (clock w) = Some payload
                  ∧ payload !! "type" = Some (PStr "access"))
  ∧ (∀ token w payload,
       fst (verify_refresh_token token w) = Ok payload →
       jwt_decode token (clock w) = Some payload
       ∧ payload !! "type" = Some (PStr "refresh")).
Proof.
  split; [|split; [|split; [|split]]].
  - intros data delta w token w1 w' Hty [-> _]%create_access_token_inv.
    apply (verify_refresh_rejects _ _ "access"); [|done].
    intros payload Hd. apply (decoded_claim _ _ _ _ _ Hd).
    by rewrite lookup_insert_ne.
  - intros data delta w token w1 w' Hty [-> _]%create_access_token_inv.
    apply (get_current_user_rejects _ _ "refresh"); [|done].
    intros payload Hd. apply (decoded_claim _ _ _ _ _ Hd).
    by rewrite lookup_insert_ne.
  - intros data delta w token w1 w' [-> _]%create_refresh_token_inv.
    apply (get_current_user_rejects _ _ "refresh"); [|done].
    intros payload Hd. apply (decoded_claim _ _ _ _ _ Hd).
    by rewrite lookup_insert_ne, lookup_insert_eq.
  - intros token w user.
    unfold get_current_user, bind, decode_token, bind, gets, ret.
    destruct (jwt_decode token (clock w)) as [payload|]; [|done].
    destruct (eq_str (payload !! "type") "access") eqn:He; [|done].
    intros _. exists payload. split; [done|]. by apply eq_str_true.
  - intros token w payload Hv.
    by destruct (verify_refresh_token_inv _ _ _ Hv) as (_ & ? & ? & _).
Qed.

(** C9.  Whatever claims [create_refresh_token] is given, a token it
    issues is signed over a payload with [type = "refresh"], and so has
    every payload that token decodes to: a [type] in the caller's claims is
    overwritten.  It issues a token whenever the expiry is an instant a
    [datetime] can hold (it raises [OverflowError] otherwise); and given a
    subject and a [type] of the caller's choosing, with a lifetime that is
    not negative, the token decodes when issued. *)
Theorem refresh_token_sets_its_type :
  (∀ (data : claims) (delta : option Z) (w w1 : world) (token : string),
     create_refresh_token data delta w = (Ok token, w1) →
     ∃ to_encode : claims,
       token = jwt_encode to_encode
       ∧ to_encode !! "type" = Some (PStr "refresh")
       ∧ ∀ now payload,
           jwt_decode token now = Some payload →
           payload !! "type" = Some (PStr "refresh"))
  ∧ (∀ (data : claims) (delta : option Z) (w : world),
       representable (clock w + delta_or delta (days 7)) →
       ∃ token, create_refresh_token data delta w = (Ok token, w)
         ∧ ∀ s t,
             data = {[ "sub" := PStr s; "type" := PStr t ]} →
             0 ≤ delta_or delta (days 7) →
             ∃ payload, jwt_decode token (clock w) = Some payload
                        ∧ payload !! "type" = Some (PStr "refresh")).
Proof.
  assert (∀ (c : claims) e,
            (<[ "exp" := PInt e ]> (<[ "type" := PStr "refresh" ]> c))
              !! "type" = Some (PStr "refresh")) as Hty.
  { intros c e. by rewrite lookup_insert_ne, lookup_insert_eq. }
  split.
  - intros data delta w w1 token [-> _]%create_refresh_token_inv.
    eexists. split; [reflexivity|]. split; [apply Hty|].
    intros now payload Hd. apply (decoded_claim _ _ _ _ _ Hd), Hty.
  - intros data delta w Hr.
    destruct (create_refresh_token_cases data delta w) as [[_ Hrun]|[Hn _]];
      [|done].
    eexists. split; [exact Hrun|].
    intros s t -> Hpos.
    change (<[ "exp" := ?e ]> (<[ "type" := ?r ]> {[ "sub" := ?a; "type" := _ ]}))
      with ({[ "sub" := a; "type" := r; "exp" := e ]} : claims).
    eexists. split; [apply jwt_decode_fresh; lia|done].
Qed.

(** The refresh tokens of [register] and [login] are issued by
    [create_access_token] over claims the route writes itself, with
    [type = "refresh"]. *)
Lemma token_pair_refresh_type username w w1 response :
  token_pair username w = (Ok response, w1) →
  ∃ c : claims,
    AuthSchema.refresh_token response = jwt_encode c
    ∧ c !! "sub" = Some (PStr username)
    ∧ c !! "type" = Some (PStr "refresh").
Proof.
  destruct (token_pair_cases username w) as [(_ & _ & _ & ->)|[_ ->]];
    [|done].
  intros [= <- _]. eexists. split; [reflexivity|]. by split.
Qed.

(** C5.  When [verify_refresh_token] accepts the token presented and
    [refresh_token] returns, it returns that very token together with an
    access token signed over the subject of the presented one,
    [type = "access"] and a new expiry, and whatever that access token
    decodes to has the same subject.  It does return whenever the lifetime
    set for access tokens is one a [timedelta] can hold and the new expiry
    an instant a [datetime] can hold (it raises [OverflowError] otherwise);
    the access token then decodes when issued if the lifetime is not
    negative. *)
Theorem refresh_returns_same_subject_and_token :
  ∀ (token : string) (w : world) (payload : claims),
    fst (verify_refresh_token token w) = Ok payload →
    ∃ sub : string,
      payload !! "sub" = Some (PStr sub)
      ∧ let issued : claims :=
          {[ "sub" := PStr sub; "type" := PStr "access";
             "exp" := PInt (clock w
                            + delta_or
                                (Some (minutes ACCESS_TOKEN_EXPIRE_MINUTES))
                                (minutes 15)) ]} in
        (∀ response w1,
           refresh_token token w = (Ok response, w1) →
           response = {| AuthSchema.access_token := jwt_encode issued;
                         AuthSchema.refresh_token := token;
                         AuthSchema.token_type := "bearer" |}
           ∧ w1 = w)
        ∧ (constructible (minutes ACCESS_TOKEN_EXPIRE_MINUTES) →
           representable
             (clock w
              + delta_or (Some (minutes ACCESS_TOKEN_EXPIRE_MINUTES))
                  (minutes 15)) →
           refresh_token token w
           = (Ok {| AuthSchema.access_token := jwt_encode issued;
                    AuthSchema.refresh_token := token;
                    AuthSchema.token_type := "bearer" |}, w))
        ∧ (∀ now p, jwt_decode (jwt_encode issued) now = Some p →
                    p !! "sub" = Some (PStr sub))
        ∧ (0 ≤ delta_or (Some (minutes ACCESS_TOKEN_EXPIRE_MINUTES))
                 (minutes 15) →
           jwt_decode (jwt_encode issued) (clock w) = Some issued).
Proof.
  intros token w payload Hv.
  destruct (verify_refresh_token_inv _ _ _ Hv) as (Hrun & Hd & _ & [v Hsub]).
  destruct (jwt_decode_sub _ _ _ _ Hd Hsub) as [sub ->].
  exists sub. split; [done|]. cbv zeta.
  assert (refresh_token token w
          = bind (timedelta (minutes ACCESS_TOKEN_EXPIRE_MINUTES))
              (λ access_delta,
                 new_access_token <-
                   create_access_token
                     {[ "sub" := PStr sub; "type" := PStr "access" ]}
                     (Some access_delta) ;;
                 ret (AuthSchema.make new_access_token token)) w) as Hroute.
  { unfold refresh_token. unfold bind at 1. by rewrite Hrun, Hsub. }
  rewrite Hroute. unfold bind at 1 3.
  split; [|split; [|split]].
  - intros response w1.
    destruct (timedelta_cases (minutes ACCESS_TOKEN_EXPIRE_MINUTES) w)
      as [[_ ->]|[_ ->]]; [|done].
    unfold bind at 1.
    destruct (create_access_token_cases
                {[ "sub" := PStr sub; "type" := PStr "access" ]}
                (Some (minutes ACCESS_TOKEN_EXPIRE_MINUTES)) w)
      as [[_ ->]|[_ ->]]; [|done].
    by intros [= <- <-].
  - intros Hc Hr.
    destruct (timedelta_cases (minutes ACCESS_TOKEN_EXPIRE_MINUTES) w)
      as [[_ ->]|[Hn _]]; [|done].
    unfold bind at 1.
    destruct (create_access_token_cases
                {[ "sub" := PStr sub; "type" := PStr "access" ]}
                (Some (minutes ACCESS_TOKEN_EXPIRE_MINUTES)) w)
      as [[_ ->]|[Hn _]]; [|done].
    reflexivity.
  - intros now p Hp. by apply (decoded_claim _ _ _ _ _ Hp).
  - intros Hpos. apply jwt_decode_fresh. lia.
Qed.

End tokens.

Section token_examples.
Import Notions JwtHandler AuthService AuthRoutes Reference.

Lemma token_kinds_are_kept_apart_witness :
  unauthenticated
    (fst (verify_refresh_token
            (jwt_encode (session "alice" "access" 2800)) (world_of [] [])))
  ∧ unauthenticated
      (fst (get_current_user
              (jwt_encode (session "alice" "refresh" 605800))
              (world_of [] []))).
Proof.
  split.
  - apply (proj1 token_kinds_are_kept_apart
             {[ "sub" := PStr "alice"; "type" := PStr "access" ]}
             (Some 1800) (world_of [] []) _ (world_of [] []));
      reflexivity.
  - apply (proj1 (proj2 token_kinds_are_kept_apart)
             {[ "sub" := PStr "alice"; "type" := PStr "refresh" ]}
             (Some 604800) (world_of [] []) _ (world_of [] []));
      reflexivity.
Defined.

(** Each token is accepted where its own kind is asked for. *)
Example tokens_accepted_by_their_own_check :
  fst (get_current_user (jwt_encode (session "alice" "access" 2800))
         (world_of [] []))
  = Ok {[ "username" := PStr "alice" ]}
  ∧ fst (verify_refresh_token (jwt_encode (session "alice" "refresh" 605800))
           (world_of [] []))
    = Ok (session "alice" "refresh" 605800).
Proof. vm_compute. split; reflexivity. Qed.

Lemma refresh_token_sets_its_type_witness :
  ∃ token,
    create_refresh_token
      {[ "sub" := PStr "alice"; "type" := PStr "access" ]} None
      (world_of [] [])
    = (Ok token, world_of [] [])
    ∧ ∃ payload, jwt_decode token 1000 = Some payload
                 ∧ payload !! "type" = Some (PStr "refresh").
Proof.
  destruct (proj2 refresh_token_sets_its_type
              {[ "sub" := PStr "alice"; "type" := PStr "access" ]} None
              (world_of [] [])) as (token & Hrun & Hfresh).
  - split; vm_compute; discriminate.
  - exists token. split; [exact Hrun|].
    apply (Hfresh "alice" "access"); [reflexivity|]. vm_compute. discriminate.
Defined.

(** A lifetime that carries the expiry past the year 9999 ends the issue
    with an [OverflowError]. *)
Example expiry_past_year_9999 :
  fst (create_refresh_token {[ "sub" := PStr "alice" ]}
         (Some (days 3000000)) (world_of [] []))
  = Raise OverflowError
  ∧ fst (create_access_token {[ "sub" := PStr "alice" ]}
           (Some (minutes 10000000000)) (world_of [] []))
    = Raise OverflowError.
Proof. split; reflexivity. Qed.

Lemma refresh_returns_same_subject_and_token_witness :
  ∃ access,
    refresh_token (jwt_encode (session "alice" "refresh" 605800))
      (world_of [] [])
    = (Ok {| AuthSchema.access_token := access;
             AuthSchema.refresh_token :=
               jwt_encode (session "alice" "refresh" 605800);
             AuthSchema.token_type := "bearer" |}, world_of [] [])
    ∧ jwt_decode access 1000 = Some (session "alice" "access" 2800).
Proof.
  destruct (refresh_returns_same_subject_and_token
              (jwt_encode (session "alice" "refresh" 605800))
              (world_of [] []) (session "alice" "refresh" 605800))
    as (sub & Hsub & _ & Hrun & _ & Hfresh).
  - vm_compute. reflexivity.
  - injection Hsub as <-. eexists. split.
    + apply Hrun; split; vm_compute; discriminate.
    + apply Hfresh. vm_compute. discriminate.
Defined.

End token_examples.

(** ** More on the database access layer *)

Section database_manager_more.
Import Notions MoreNotions DatabaseManager.

Lemma update_guard_other query v :
  leading_verb query v → v ≠ UPDATE → has_verb query "UPDATE" = false.
Proof.
  intros Hv Hne. destruct (has_verb_leading query v "UPDATE" Hv) as [r ->].
  destruct v; try done; reflexivity.
Qed.

Lemma delete_guard_other query v :
  leading_verb query v → v ≠ DELETE → has_verb query "DELETE" = false.
Proof.
  intros Hv Hne. destruct (has_verb_leading query v "DELETE" Hv) as [r ->].
  destruct v; try done; reflexivity.
Qed.

(** [insert], [update] and [delete] refuse a statement led by another SQL
    verb, each with its own message, before any connection is opened. *)
Theorem writes_check_statement_kind :
  ∀ query v values w,
    leading_verb query v →
    (v ≠ INSERT →
     insert query values w
     = (Raise (DatabaseError "Query must be an INSERT statement"), w))
    ∧ (v ≠ UPDATE →
       update query values w
       = (Raise (DatabaseError "Query must be an UPDATE statement"), w))
    ∧ (v ≠ DELETE →
       delete query values w
       = (Raise (DatabaseError "Query must be a DELETE statement"), w)).
Proof.
  intros query v values w Hv. repeat split; intros Hne.
  - unfold insert. by rewrite (insert_guard_other query v Hv Hne).
  - unfold update. by rewrite (update_guard_other query v Hv Hne).
  - unfold delete. by rewrite (delete_guard_other query v Hv Hne).
Qed.

Lemma writes_check_statement_kind_witness :
  insert "SELECT * FROM users" [] (Reference.world_of [] [])
  = (Raise (DatabaseError "Query must be an INSERT statement"),
     Reference.world_of [] [])
  ∧ update "select * from users" [] (Reference.world_of [] [])
    = (Raise (DatabaseError "Query must be an UPDATE statement"),
       Reference.world_of [] [])
  ∧ delete " Select * from users" [] (Reference.world_of [] [])
    = (Raise (DatabaseError "Query must be a DELETE statement"),
       Reference.world_of [] []).
Proof.
  split; [|split].
  - apply (writes_check_statement_kind _ SELECT); [reflexivity|discriminate].
  - apply (writes_check_statement_kind _ SELECT); [reflexivity|discriminate].
  - apply (writes_check_statement_kind _ SELECT); [reflexivity|discriminate].
Defined.

(** Whatever the driver raises leaves [_execute] as a [DatabaseError]. *)
Lemma execute_error_wrapped e : ∃ m, execute_error e = DatabaseError m.
Proof.
  destruct e as [m|m|m|m]; simpl; try by eexists.
  destruct (contains (lower m) "locked"); [by eexists|].
  destruct (contains (lower m) "no such table"); [by eexists|].
  destruct (contains (lower m) "syntax error"); by eexists.
Qed.

Lemma batch_error_wrapped e : ∃ m, batch_error e = DatabaseError m.
Proof.
  destruct e as [m|m|m|m]; simpl; try by eexists.
  destruct (contains (lower m) "locked"); [by eexists|].
  destruct (contains (lower m) "no such table"); [by eexists|].
  destruct (contains (lower m) "syntax error"); by eexists.
Qed.

Lemma execute_wrapped query values w :
  result_or_database_error (fst (_execute query values w)).
Proof.
  unfold _execute. destruct (sqlite_execute query values w) as [[e|c] w'].
  - simpl. by destruct (execute_error_wrapped e) as [m ->].
  - done.
Qed.

Lemma bind_wrapped {A B} (m : M A) (k : A → M B) w :
  result_or_database_error (fst (m w)) →
  (∀ a w', result_or_database_error (fst (k a w'))) →
  result_or_database_error (fst (bind m k w)).
Proof.
  intros Hm Hk. unfold bind. destruct (m w) as [[a|e] w']; simpl in *.
  - apply Hk.
  - done.
Qed.

Lemma select_wrapped query values w :
  result_or_database_error (fst (select query values w)).
Proof.
  unfold select. destruct (has_verb query "SELECT"); simpl; [|done].
  apply bind_wrapped; [apply execute_wrapped|done].
Qed.

Lemma table_exists_wrapped table_name w :
  result_or_database_error (fst (table_exists table_name w)).
Proof.
  unfold table_exists. destruct (_ || _); [done|].
  destruct (negb _); [done|].
  apply bind_wrapped; [apply select_wrapped|done].
Qed.

(** The access layer has one error kind: every operation returns, or
    raises [DatabaseError]; no exception of the driver gets through. *)
Theorem operations_raise_database_error_only :
  ∀ (query table_name : string) (values : list pyval)
    (optional : option (list pyval)) (values_list : pyval) (w : world),
    result_or_database_error (fst (insert query values w))
    ∧ result_or_database_error (fst (insert_many query values_list w))
    ∧ result_or_database_error (fst (select query optional w))
    ∧ result_or_database_error (fst (update query values w))
    ∧ result_or_database_error (fst (delete query values w))
    ∧ result_or_database_error (fst (table_exists table_name w))
    ∧ result_or_database_error (fst (get_table_info table_name w)).
Proof.
  intros query table_name values optional values_list w. repeat split.
  - unfold insert. destruct (has_verb query "INSERT"); simpl; [|done].
    apply bind_wrapped; [apply execute_wrapped|].
    intros c w'. by destruct (lastrowid c).
  - unfold insert_many. destruct (has_verb query "INSERT"); simpl; [|done].
    destruct (list_of_tuples values_list) as [items|]; [|done].
    destruct (sqlite_executemany query items w) as [[e|n] w']; [|done].
    simpl. by destruct (batch_error_wrapped e) as [m ->].
  - apply select_wrapped.
  - unfold update. destruct (has_verb query "UPDATE"); simpl; [|done].
    apply bind_wrapped; [apply execute_wrapped|done].
  - unfold delete. destruct (has_verb query "DELETE"); simpl; [|done].
    apply bind_wrapped; [apply execute_wrapped|done].
  - apply table_exists_wrapped.
  - unfold get_table_info. apply bind_wrapped; [apply table_exists_wrapped|].
    intros found w'. destruct (negb found); [done|]. apply select_wrapped.
Qed.

(** The statement [get_table_info] builds is no SELECT. *)
Lemma pragma_is_no_select table_name :
  has_verb ("PRAGMA table_info(" +:+ table_name +:+ ")") "SELECT" = false.
Proof.
  change ("PRAGMA table_info(" +:+ table_name +:+ ")")
    with (String "P" ("RAGMA table_info(" +:+ table_name +:+ ")")).
  unfold has_verb, strip.
  change (lstrip (String "P" ?r)) with (String "P" r).
  by rewrite rstrip_cons.
Qed.

(** [get_table_info] never returns: for a name [table_exists] refuses or
    does not find it raises as that does, and for a table that exists
    [select] refuses its PRAGMA statement. *)
Theorem get_table_info_always_raises :
  ∀ (table_name : string) (w : world),
    (∃ m w', get_table_info table_name w = (Raise (DatabaseError m), w'))
    ∧ (∀ w', table_exists table_name w = (Ok true, w') →
             get_table_info table_name w
             = (Raise (DatabaseError "Query must be a SELECT statement"), w')).
Proof.
  intros table_name w.
  assert (∀ w', table_exists table_name w = (Ok true, w') →
            get_table_info table_name w
            = (Raise (DatabaseError "Query must be a SELECT statement"), w'))
    as Hfound.
  { intros w' Hex. unfold get_table_info, bind. rewrite Hex. cbn [negb].
    unfold select. by rewrite pragma_is_no_select. }
  split; [|done].
  pose proof (table_exists_wrapped table_name w) as Hw.
  destruct (table_exists table_name w) as [[[]|e] w'] eqn:Hex.
  - eexists _, _. by apply Hfound.
  - eexists _, _. unfold get_table_info, bind. by rewrite Hex.
  - destruct e; try done. eexists _, _.
    unfold get_table_info, bind. by rewrite Hex.
Qed.

Lemma dash_not_alnum c : is_dash c = true → is_alnum c = false.
Proof. destruct c as [[] [] [] [] [] [] [] []]; vm_compute; congruence. Qed.







(** A name of underscores and hyphens only is refused as well, and so is a
    name with blanks around it: the [strip] in the lookup has nothing left
    to remove. *)
Example table_exists_refused_names :
  fst (table_exists "__" (Reference.world_of [] []))
  = Raise (DatabaseError "Table name contains invalid characters")
  ∧ fst (table_exists " users" (Reference.world_of [] []))
    = Raise (DatabaseError "Table name contains invalid characters")
  ∧ fst (table_exists "   " (Reference.world_of [] []))
    = Raise (DatabaseError "Table name cannot be empty").
Proof. repeat split. Qed.

End database_manager_more.

(** ** More on the credential store *)

Section credential_store_more.
Import Notions MoreNotions DatabaseManager AuthService.
Context {crypt : CryptContext}.

Lemma insert_user_down u h w :
  store_down w = true → ∃ e, insert_user u h w = (Raise e, connect w).
Proof.
  unfold store_down, insert_user, bind, insert. intros Hdown.
  change (has_verb USERS_INSERT "INSERT") with true. cbn [negb].
  unfold bind, _execute, sqlite_execute.
  destruct (head (env w)) as [[e|c]|]; try done. by eexists.
Qed.

Lemma stored_app u us r :
  stored u (us ++ [r])%list
  = match stored u us with
    | Some old => Some old
    | None => if named u r then Some r else None
    end.
Proof.
  unfold stored. rewrite List.filter_app. simpl.
  destruct (List.filter (named u) us); simpl; [|done].
  by destruct (named u r).
Qed.

(** What [create_user] can do, in any world: it returns, and either leaves
    the table alone or has put one record at its end. *)
Lemma create_user_cases u p w :
  ∃ res w', create_user u p w = (Ok res, w')
    ∧ match res with
      | None => users w' = users w
      | Some c =>
          ∃ h, pwd_hash p (seed w) = Some h
            ∧ created_id c = next_rowid (users w)
            ∧ users w'
              = (users w ++ [{| id := created_id c;
                                World.username := created_username c;
                                hashed_password := h |}])%list
            ∧ (created_username c = u
               ∨ ∃ k : nat, (1 ≤ k)%nat ∧ created_username c = u +:+ pretty k)
            ∧ (faultless (env w) = true →
               ¬ taken (created_username c) (users w))
      end.
Proof.
  unfold create_user, try_except, bind. rewrite get_user_eval.
  unfold pwd_context_hash. cbn [seed connect].
  destruct (pwd_hash p (seed w)) as [h|] eqn:Hh;
    [|by exists None, (next_seed (connect w))].
  set (w1 := next_seed (connect w)).
  assert (∀ name w2,
    users w2 = users w →
    (name = u ∨ ∃ k : nat, (1 ≤ k)%nat ∧ name = u +:+ pretty k) →
    (faultless (env w) = true → ¬ taken name (users w)) →
    ∃ res w',
      match insert_user name h w2 with
      | (Ok a, w') => (Ok a, w')
      | (Raise _, w') => ret None w'
      end = (Ok res, w')
      ∧ match res with
        | None => users w' = users w
        | Some c =>
            ∃ h0, Some h = Some h0
              ∧ created_id c = next_rowid (users w)
              ∧ users w'
                = (users w ++ [{| id := created_id c;
                                  World.username := created_username c;
                                  hashed_password := h0 |}])%list
              ∧ (created_username c = u
                 ∨ ∃ k : nat, (1 ≤ k)%nat
                              ∧ created_username c = u +:+ pretty k)
              ∧ (faultless (env w) = true →
                 ¬ taken (created_username c) (users w))
        end) as Hins.
  { intros name w2 Hu Hname Hfree. destruct (store_down w2) eqn:Hd.
    - destruct (insert_user_down name h w2 Hd) as [e ->].
      by exists None, (connect w2).
    - rewrite (insert_user_eval name h w2 Hd), Hu. eexists _, _.
      split; [done|]. exists h. by repeat split. }
  destruct (if store_down w then None else info_of <$> stored u (users w))
    as [existing|] eqn:Hex.
  - unfold pwd_context_verify.
    destruct (pwd_verify p (info_hashed_password existing)) as [[]|];
      [by exists None, w1| |by exists None, w1].
    cbn -[next_free]. unfold bind.
    change (S (length (users w))) with (S (length (users w1))).
    destruct (next_free_spec (S (length (users w1))) u 1 w1)
      as (res & w2 & -> & Hu & _ & Hf2 & Hres).
    destruct res as [k|]; [|by exists None, w2].
    destruct Hres as (Hk & _ & Hfree).
    apply Hins; [done|right; by exists k|].
    intros Hf. by apply Hfree, faultless_connect.
  - apply Hins; [done|by left|].
    intros Hf. rewrite (faultless_up w Hf) in Hex.
    apply stored_None. by destruct (stored u (users w)).
Qed.

(** [create_user] never raises, and never touches a record that is there:
    when it returns [None] the table is as it was, and when it returns a
    dictionary the table has gained one record, at its end, with the
    identifier and the name returned. *)
Theorem create_user_only_appends :
  ∀ (u p : string) (w : world),
    ∃ res w', create_user u p w = (Ok res, w')
      ∧ match res with
        | None => users w' = users w
        | Some c =>
            ∃ h, users w'
                 = (users w ++ [{| id := created_id c;
                                   World.username := created_username c;
                                   hashed_password := h |}])%list
        end.
Proof.
  intros u p w. destruct (create_user_cases u p w) as (res & w' & Hrun & Hres).
  exists res, w'. split; [done|]. destruct res as [c|]; [|done].
  destruct Hres as (h & _ & _ & Hu & _). by exists h.
Qed.

(** While the store stays up, [create_user] keeps names unique: a table
    in which no two records share a name is one still after the call. *)
Theorem create_user_keeps_names_unique :
  ∀ (u p : string) (w : world),
    faultless (env w) = true →
    NoDup (World.username <$> users w) →
    NoDup (World.username <$> users (snd (create_user u p w))).
Proof.
  intros u p w Hf Hnd.
  destruct (create_user_cases u p w) as (res & w' & -> & Hres). simpl.
  destruct res as [c|]; [|by rewrite Hres].
  destruct Hres as (h & _ & _ & -> & _ & Hfree).
  rewrite fmap_app. apply NoDup_app. split; [done|]. split.
  - intros x Hx Hin. simpl in Hin. apply list_elem_of_singleton in Hin as ->.
    by apply (Hfree Hf).
  - simpl. apply NoDup_singleton.
Qed.

(** A lookup that the store fails counts as "no such user": when the
    first connection fails and the next one works, [create_user] inserts the
    name it was given, whether or not a record bears it already. *)
Theorem create_user_inserts_blindly_after_failed_lookup :
  ∀ (u p h : string) (w : world),
    store_down w = true →
    store_down (connect w) = false →
    pwd_hash p (seed w) = Some h →
    ∃ w', create_user u p w
          = (Ok (Some {| created_id := next_rowid (users w);
                         created_username := u |}), w')
      ∧ users w'
        = (users w ++ [{| id := next_rowid (users w); World.username := u;
                          hashed_password := h |}])%list.
Proof.
  intros u p h w Hd Hup Hh. exists (set_users
    (users w ++ [{| id := next_rowid (users w); World.username := u;
                    hashed_password := h |}])%list
    (connect (next_seed (connect w)))).
  split; [|reflexivity].
  unfold create_user, try_except, bind. rewrite get_user_eval, Hd.
  unfold pwd_context_hash. cbn [seed connect]. rewrite Hh.
  by rewrite (insert_user_eval u h (next_seed (connect w)) Hup).
Qed.

Lemma insert_users_eval u h w :
  store_down w = false →
  insert USERS_INSERT [PStr u; PStr h] w
  = (Ok (next_rowid (users w)),
     set_users
       (users w ++ [{| id := next_rowid (users w); World.username := u;
                       hashed_password := h |}])%list (connect w)).
Proof.
  unfold store_down, insert. intros Hup.
  change (has_verb USERS_INSERT "INSERT") with true. cbn [negb].
  unfold bind, _execute, sqlite_execute.
  destruct (head (env w)) as [[e|c]|]; try done;
    unfold run_statement;
    change (String.eqb USERS_INSERT USERS_SELECT) with false;
    rewrite String.eqb_refl; done.
Qed.

(** Insert, then look up.  With the store up for both, the lookup after
    an insert under [u] finds a record of that name: the one just written
    if the name was free, and otherwise the older one, which hides it. *)
Theorem insert_then_get_user :
  ∀ (u h : string) (w : world),
    store_down w = false →
    store_down (connect w) = false →
    ∃ w1, insert USERS_INSERT [PStr u; PStr h] w
          = (Ok (next_rowid (users w)), w1)
      ∧ get_user u w1
        = (Ok (Some (match stored u (users w) with
                     | Some old => info_of old
                     | None => {| info_username := u;
                                  info_hashed_password := h |}
                     end)), connect w1).
Proof.
  intros u h w Hup Hup'. eexists. split; [by apply insert_users_eval|].
  rewrite get_user_eval.
  change (store_down (set_users ?us (connect w))) with (store_down (connect w)).
  rewrite Hup'. cbn [users set_users]. rewrite stored_app.
  unfold named at 1. cbn [World.username]. rewrite String.eqb_refl.
  by destruct (stored u (users w)).
Qed.

End credential_store_more.

Section credential_store_more_examples.
Import Notions DatabaseManager AuthService Reference.

Lemma create_user_keeps_names_unique_witness :
  NoDup (World.username <$>
           users (snd (create_user "alice" "p3" (world_of [alice; alice1] [])))).
Proof.
  apply create_user_keeps_names_unique; [reflexivity|].
  repeat constructor; intros Hin; apply list_elem_of_In in Hin;
    simpl in Hin; intuition discriminate.
Defined.

Lemma create_user_inserts_blindly_after_failed_lookup_witness :
  ∃ w', create_user "alice" "p1"
          (world_of [alice] [Fail (OperationalError "database is locked")])
        = (Ok (Some {| created_id := 2; created_username := "alice" |}), w')
    ∧ users w'
      = [alice; {| id := 2; World.username := "alice";
                   hashed_password := "7:p1" |}].
Proof.
  apply (create_user_inserts_blindly_after_failed_lookup "alice" "p1" "7:p1"
           (world_of [alice] [Fail (OperationalError "database is locked")]));
    reflexivity.
Defined.

Lemma insert_then_get_user_witness :
  ∃ w1, insert USERS_INSERT [PStr "alice"; PStr "9:other"] (world_of [alice] [])
        = (Ok 2, w1)
    ∧ get_user "alice" w1 = (Ok (Some (info_of alice)), connect w1).
Proof.
  apply (insert_then_get_user "alice" "9:other" (world_of [alice] []));
    reflexivity.
Defined.

End credential_store_more_examples.

(** ** More on registration, login and the protected routes *)

Section routes_more.
Import Notions MoreNotions DatabaseManager JwtHandler AuthService AuthRoutes.
Import HealthService HealthRoutes.
Context {jose : Jose} {crypt : CryptContext} {settings : Settings}.

(** The lifetime of an access token: [ACCESS_TOKEN_EXPIRE_MINUTES] minutes,
    or fifteen when that is zero. *)
Lemma access_lifetime_nonneg :
  0 ≤ ACCESS_TOKEN_EXPIRE_MINUTES →
  0 ≤ delta_or (Some (minutes ACCESS_TOKEN_EXPIRE_MINUTES)) (minutes 15).
Proof.
  intros Hm. unfold delta_or, minutes.
  destruct (60 * ACCESS_TOKEN_EXPIRE_MINUTES =? 0); lia.
Qed.

Lemma token_pair_eval username w :
  pair_issuable w →
  token_pair username w
  = (Ok (AuthSchema.make
           (jwt_encode
              {[ "sub" := PStr username; "type" := PStr "access";
                 "exp" := PInt (clock w + access_lifetime) ]})
           (jwt_encode
              {[ "sub" := PStr username; "type" := PStr "refresh";
                 "exp" := PInt (clock w + days 7) ]})), w).
Proof.
  intros Hp.
  by destruct (token_pair_cases username w) as [(_ & _ & _ & ->)|[Hn _]].
Qed.

Lemma token_pair_inv username w w1 response :
  token_pair username w = (Ok response, w1) →
  response
  = AuthSchema.make
      (jwt_encode
         {[ "sub" := PStr username; "type" := PStr "access";
            "exp" := PInt (clock w + access_lifetime) ]})
      (jwt_encode
         {[ "sub" := PStr username; "type" := PStr "refresh";
            "exp" := PInt (clock w + days 7) ]}).
Proof.
  destruct (token_pair_cases username w) as [(_ & _ & _ & ->)|[_ ->]];
    [|done]. by intros [= <- _].
Qed.

(** Registration under a free name.  With the store up for the lookup and
    the insert, a name no record bears, a password that hashes to [h], and
    expiries that can be computed: [register] puts the record [(u, h)] at
    the end of the table and returns an access and a refresh token, both
    signed over [sub = u]. *)
Theorem register_fresh_user :
  ∀ (data : AuthSchema.UserRequest) (h : string) (w : world),
    store_down w = false →
    store_down (connect w) = false →
    ¬ taken (AuthSchema.username data) (users w) →
    pwd_hash (AuthSchema.password data) (seed w) = Some h →
    pair_issuable w →
    ∃ w',
      register data w
      = (Ok (AuthSchema.make
               (jwt_encode
                  {[ "sub" := PStr (AuthSchema.username data);
                     "type" := PStr "access";
                     "exp" := PInt (clock w + access_lifetime) ]})
               (jwt_encode
                  {[ "sub" := PStr (AuthSchema.username data);
                     "type" := PStr "refresh";
                     "exp" := PInt (clock w + days 7) ]})), w')
      ∧ users w'
        = (users w ++ [{| id := next_rowid (users w);
                          World.username := AuthSchema.username data;
                          hashed_password := h |}])%list.
Proof.
  intros [u p] h w Hup Hup' Hfree Hh Hissue.
  cbn [AuthSchema.username AuthSchema.password] in *.
  exists (set_users
    (users w ++ [{| id := next_rowid (users w); World.username := u;
                    hashed_password := h |}])%list
    (connect (next_seed (connect w)))).
  split; [|reflexivity].
  unfold register, bind. cbn [AuthSchema.username AuthSchema.password].
  unfold create_user, try_except, bind.
  rewrite get_user_eval, Hup, (not_taken_stored _ _ Hfree).
  unfold pwd_context_hash. cbn [seed connect fmap option_fmap option_map].
  rewrite Hh.
  rewrite (insert_user_eval u h (next_seed (connect w)) Hup').
  cbn [created_username]. by rewrite token_pair_eval.
Qed.

(** A failed insert reads as a duplicate.  When the name is free and the
    lookup works but the store fails the insert, [register] raises 400
    "User already exists" and the table is as it was. *)
Theorem register_reports_failed_insert_as_duplicate :
  ∀ (data : AuthSchema.UserRequest) (w : world),
    store_down w = false →
    store_down (connect w) = true →
    ¬ taken (AuthSchema.username data) (users w) →
    ∃ w',
      register data w
      = (Raise (HTTPException 400 "User already exists"), w')
      ∧ users w' = users w.
Proof.
  intros [u p] w Hup Hdown Hfree. cbn [AuthSchema.username] in *.
  unfold register, bind. cbn [AuthSchema.username AuthSchema.password].
  unfold create_user, try_except, bind.
  rewrite get_user_eval, Hup, (not_taken_stored _ _ Hfree).
  unfold pwd_context_hash. cbn [seed connect fmap option_fmap option_map].
  destruct (pwd_hash p (seed w)) as [h|]; [|by eexists].
  destruct (insert_user_down u h (next_seed (connect w)) Hdown) as [e ->].
  by eexists.
Qed.

(** Login with the right password.  With the store up, a record under the
    name whose hash verifies, a lifetime setting that is not negative and
    expiries that can be computed: [login] returns a token pair and touches
    nothing but one connection; the access token opens the protected route
    for that name, and the refresh token, presented at once, yields the
    same pair again. *)
Theorem login_then_use_tokens :
  ∀ (data : AuthSchema.UserRequest) (r : user_row) (w : world),
    store_down w = false →
    stored (AuthSchema.username data) (users w) = Some r →
    pwd_verify (AuthSchema.password data) (hashed_password r) = Some true →
    0 ≤ ACCESS_TOKEN_EXPIRE_MINUTES →
    pair_issuable w →
    ∃ response,
      login data w = (Ok response, connect w)
      ∧ protected_route (AuthSchema.access_token response) (connect w)
        = (Ok ("Authenticated access granted to "
               +:+ AuthSchema.username data +:+ "!"), connect w)
      ∧ refresh_token (AuthSchema.refresh_token response) (connect w)
        = (Ok response, connect w).
Proof.
  intros [u p] r w Hup Hst Hver Hm Hissue.
  cbn [AuthSchema.username AuthSchema.password] in *.
  eexists. split.
  { unfold login, bind, authenticate_user, try_except, bind.
    cbn [AuthSchema.username AuthSchema.password].
    rewrite get_user_eval, Hup, Hst. cbn [fmap option_fmap option_map].
    unfold verify_password. cbn [info_of info_hashed_password].
    rewrite Hver. cbn [negb]. unfold ret at 1.
    by rewrite token_pair_eval. }
  cbn [AuthSchema.make AuthSchema.access_token AuthSchema.refresh_token].
  cbn [clock connect].
  pose proof (access_lifetime_nonneg Hm) as Hlife.
  destruct Hissue as (Hc & Ha & _). split.
  - unfold protected_route, bind, get_current_user, bind, decode_token, bind,
      gets, ret. cbn [clock connect].
    rewrite jwt_decode_fresh by (unfold access_lifetime; lia). reflexivity.
  - assert (verify_refresh_token
              (jwt_encode {[ "sub" := PStr u; "type" := PStr "refresh";
                             "exp" := PInt (clock w + days 7) ]}) (connect w)
            = (Ok {[ "sub" := PStr u; "type" := PStr "refresh";
                     "exp" := PInt (clock w + days 7) ]}, connect w))
      as Hverify.
    { unfold verify_refresh_token, bind, gets. cbn [clock connect].
      rewrite jwt_decode_fresh by (unfold days; lia). reflexivity. }
    unfold refresh_token. unfold bind at 1. rewrite Hverify.
    assert (({[ "sub" := PStr u; "type" := PStr "refresh";
                "exp" := PInt (clock w + days 7) ]} : claims) !! "sub"
            = Some (PStr u)) as -> by reflexivity.
    unfold bind.
    destruct (timedelta_cases (minutes ACCESS_TOKEN_EXPIRE_MINUTES)
                (connect w)) as [[_ ->]|[Hn _]]; [|done].
    cbv iota beta.
    destruct (create_access_token_cases
                {[ "sub" := PStr u; "type" := PStr "access" ]}
                (Some (minutes ACCESS_TOKEN_EXPIRE_MINUTES)) (connect w))
      as [[_ ->]|[Hn _]]; [|done].
    reflexivity.
Qed.

(** What [login] can end in, whatever the request and whatever the store
    does: a token pair, the 401 "Invalid username or password", or, past
    the password check, the [OverflowError] of an expiry that cannot be
    computed.  The 500 of [authenticate_user] is never raised. *)
Theorem login_outcomes :
  ∀ (data : AuthSchema.UserRequest) (w : world),
    (∃ response, fst (login data w) = Ok response)
    ∨ fst (login data w)
      = Raise (HTTPException 401 "Invalid username or password")
    ∨ (fst (login data w) = Raise OverflowError ∧ ¬ pair_issuable w).
Proof.
  intros [u p] w. unfold login, bind, authenticate_user, try_except, bind.
  cbn [AuthSchema.username AuthSchema.password]. rewrite get_user_eval.
  destruct (if store_down w then None else info_of <$> stored u (users w))
    as [user|]; [|by right; left].
  destruct (verify_password p (info_hashed_password user));
    [|by right; left].
  cbn [negb]. change (ret u (connect w)) with (Ok u, connect w).
  cbv iota beta.
  destruct (token_pair_cases u (connect w)) as [(_ & _ & _ & ->)|[Hn ->]].
  - left. by eexists.
  - right. right. split; [done|]. intros Hissue. apply Hn. exact Hissue.
Qed.

(** The tokens of a pair are not interchangeable on the routes: the
    refresh token is refused by the protected route and the access token by
    the refresh route, with a 401, at any time. *)
Theorem routes_keep_token_kinds_apart :
  ∀ (username : string) (w w1 w' : world)
    (response : AuthSchema.TokenResponse),
    token_pair username w = (Ok response, w1) →
    unauthenticated
      (fst (protected_route (AuthSchema.refresh_token response) w'))
    ∧ unauthenticated
        (fst (refresh_token (AuthSchema.access_token response) w')).
Proof.
  intros username w w1 w' response ->%token_pair_inv.
  cbn [AuthSchema.make AuthSchema.access_token AuthSchema.refresh_token].
  unfold access_lifetime. split.
  - unfold protected_route, bind.
    destruct (get_current_user_rejects
                (jwt_encode {[ "sub" := PStr username; "type" := PStr "refresh";
                               "exp" := PInt (clock w + days 7) ]})
                w' "refresh") as [detail Hd]; [|done|].
    + intros payload Hp. by apply (decoded_claim _ _ _ _ _ Hp).
    + destruct (get_current_user _ w') as [[a|e] w2]; simpl in Hd; [done|].
      injection Hd as ->. by eexists.
  - unfold refresh_token, bind.
    destruct (verify_refresh_rejects
                (jwt_encode
                   {[ "sub" := PStr username; "type" := PStr "access";
                      "exp" := PInt (clock w
                                     + delta_or
                                         (Some (minutes
                                                  ACCESS_TOKEN_EXPIRE_MINUTES))
                                         (minutes 15)) ]})
                w' "access") as [detail Hd]; [|done|].
    + intros payload Hp. by apply (decoded_claim _ _ _ _ _ Hp).
    + destruct (verify_refresh_token _ w') as [[a|e] w2]; simpl in Hd; [done|].
      injection Hd as ->. by eexists.
Qed.

Lemma check_health_returns w : ∃ body, check_health w = (Ok body, connect w).
Proof.
  unfold check_health, try_except, bind, select.
  change (has_verb "SELECT 1" "SELECT") with true. cbn [negb].
  unfold bind, _execute, sqlite_execute.
  destruct (head (env w)) as [[e|c]|]; by eexists.
Qed.

(** [check_health] never raises and uses one connection: it reports "ok"
    when the store answers, and when the store fails it reports "error"
    with the wrapped message of the failure. *)
Theorem check_health_reports_the_store :
  ∀ w : world,
    ∃ body,
      check_health w = (Ok body, connect w)
      ∧ (store_down w = false →
         body = {| status := "ok";
                   message := "API is healthy and database is connected." |})
      ∧ (∀ e rest, env w = Fail e :: rest →
           ∃ m, execute_error e = DatabaseError m
             ∧ body = {| status := "error";
                         message := "Database connection failed: " +:+ m |}).
Proof.
  intros w. unfold check_health, try_except, bind, select, store_down.
  change (has_verb "SELECT 1" "SELECT") with true. cbn [negb].
  unfold bind, _execute, sqlite_execute.
  destruct (head (env w)) as [[e|c]|] eqn:Hhead.
  - destruct (execute_error_wrapped e) as [m Hm]. rewrite Hm.
    eexists. split; [reflexivity|]. split; [done|].
    intros e' rest Henv. rewrite Henv in Hhead. injection Hhead as ->.
    exists m. by split.
  - eexists. split; [reflexivity|]. split; [done|].
    intros e' rest Henv. by rewrite Henv in Hhead.
  - eexists. split; [reflexivity|]. split; [done|].
    intros e' rest Henv. by rewrite Henv in Hhead.
Qed.

(** The health route raises nothing but the 401 of its token check.  A
    refused token ends it before the store is asked; with an accepted
    token it returns the body of [check_health], so a store that is down
    shows as status "error" in a normal response, and neither the 404 nor
    the 500 of the route is ever raised. *)
Theorem health_route_outcomes :
  ∀ (token : string) (w : world),
    (∀ e, fst (get_current_user token w) = Raise e →
          health token w = (Raise e, w) ∧ unauthenticated (fst (health token w)))
    ∧ (∀ user, fst (get_current_user token w) = Ok user →
               health token w = check_health w).
Proof.
  intros token w.
  assert (snd (get_current_user token w) = w) as Hw.
  { unfold get_current_user, bind, decode_token, bind, gets, ret.
    destruct (jwt_decode token (clock w)) as [payload|]; [|done].
    destruct (negb _); [done|]. by destruct (payload !! "sub"). }
  split.
  - intros e He.
    assert (health token w = (Raise e, w)) as Hrun.
    { unfold health, bind. destruct (get_current_user token w) as [[a|e'] w'].
      - done.
      - simpl in *. congruence. }
    split; [done|]. rewrite Hrun. simpl.
    revert He. unfold get_current_user, bind, decode_token, bind, gets, ret.
    destruct (jwt_decode token (clock w)) as [payload|];
      [|intros [= <-]; by eexists].
    destruct (negb _); [intros [= <-]; by eexists|].
    destruct (payload !! "sub"); [done|intros [= <-]; by eexists].
  - intros user Hok. unfold health, bind.
    destruct (get_current_user token w) as [[a|e'] w']; simpl in *; [|done].
    subst w'. destruct (check_health_returns w) as (body & Hrun).
    unfold try_except, bind. by rewrite Hrun.
Qed.

End routes_more.

Section routes_more_examples.
Import Notions DatabaseManager JwtHandler AuthService AuthRoutes Reference.
Import HealthService HealthRoutes.

Lemma register_fresh_user_witness :
  ∃ w',
    register (request "bob" "pw") (world_of [alice] [])
    = (Ok (AuthSchema.make
             (jwt_encode (session "bob" "access" 2800))
             (jwt_encode (session "bob" "refresh" 605800))), w')
    ∧ users w'
      = [alice; {| id := 2; World.username := "bob";
                   hashed_password := "7:pw" |}].
Proof.
  destruct (register_fresh_user (request "bob" "pw") "7:pw"
              (world_of [alice] [])) as (w' & Hrun & Hu);
    [reflexivity|reflexivity| |reflexivity| |].
  - intros Hin. apply list_elem_of_In in Hin. simpl in Hin.
    destruct Hin as [Hin|[]]. discriminate.
  - repeat split; vm_compute; discriminate.
  - exists w'. split; [exact Hrun|exact Hu].
Defined.

Lemma register_reports_failed_insert_as_duplicate_witness :
  ∃ w',
    register (request "bob" "pw")
      (world_of [alice] [Answer quiet; Fail (OperationalError "disk I/O error")])
    = (Raise (HTTPException 400 "User already exists"), w')
    ∧ users w' = [alice].
Proof.
  apply (register_reports_failed_insert_as_duplicate (request "bob" "pw")
           (world_of [alice]
              [Answer quiet; Fail (OperationalError "disk I/O error")]));
    try reflexivity.
  intros Hin. apply list_elem_of_In in Hin. simpl in Hin.
  destruct Hin as [Hin|[]]. discriminate.
Defined.

Lemma login_then_use_tokens_witness :
  ∃ response,
    login (request "alice" "p1") (world_of [alice] [])
    = (Ok response, connect (world_of [alice] []))
    ∧ protected_route (AuthSchema.access_token response)
        (connect (world_of [alice] []))
      = (Ok "Authenticated access granted to alice!",
         connect (world_of [alice] []))
    ∧ refresh_token (AuthSchema.refresh_token response)
        (connect (world_of [alice] []))
      = (Ok response, connect (world_of [alice] [])).
Proof.
  apply (login_then_use_tokens (request "alice" "p1") alice
           (world_of [alice] [])); try reflexivity.
  - vm_compute. discriminate.
  - repeat split; vm_compute; discriminate.
Defined.

(** With the right password and a lifetime of ten thousand million
    minutes, [login] ends in the [OverflowError] of the expiry. *)
Example login_with_lifetime_past_year_9999 :
  fst (login (H1 := {| ACCESS_TOKEN_EXPIRE_MINUTES := 10000000000 |})
         (request "alice" "p1") (world_of [alice] []))
  = Raise OverflowError.
Proof. reflexivity. Qed.

Lemma routes_keep_token_kinds_apart_witness :
  unauthenticated
    (fst (protected_route (jwt_encode (session "alice" "refresh" 605800))
            (world_of [] [])))
  ∧ unauthenticated
      (fst (refresh_token (jwt_encode (session "alice" "access" 2800))
              (world_of [] []))).
Proof.
  apply (routes_keep_token_kinds_apart "alice" (world_of [] [])
           (world_of [] []) (world_of [] [])
           (AuthSchema.make (jwt_encode (session "alice" "access" 2800))
              (jwt_encode (session "alice" "refresh" 605800)))).
  reflexivity.
Defined.

Lemma check_health_reports_the_store_witness :
  check_health (world_of [] [])
  = (Ok {| status := "ok";
           message := "API is healthy and database is connected." |},
     connect (world_of [] []))
  ∧ check_health (world_of [] [Fail (OperationalError "database is locked")])
    = (Ok {| status := "error";
             message := "Database connection failed: Database is locked - try again later" |},
       connect (world_of [] [Fail (OperationalError "database is locked")])).
Proof.
  split.
  - destruct (check_health_reports_the_store (world_of [] []))
      as (body & Hrun & Hok & _).
    rewrite Hrun. by rewrite (Hok eq_refl).
  - destruct (check_health_reports_the_store
                (world_of [] [Fail (OperationalError "database is locked")]))
      as (body & Hrun & _ & Hdown).
    rewrite Hrun.
    destruct (Hdown (OperationalError "database is locked") [] eq_refl)
      as (m & Hm & ->).
    vm_compute in Hm. by injection Hm as <-.
Defined.

Lemma health_route_outcomes_witness :
  health (jwt_encode (session "alice" "access" 2800))
    (world_of [] [Fail (OperationalError "database is locked")])
  = check_health (world_of [] [Fail (OperationalError "database is locked")])
  ∧ health (jwt_encode (session "alice" "refresh" 605800)) (world_of [] [])
    = (Raise (HTTPException 401 "Invalid authentication credentials"),
       world_of [] []).
Proof.
  split.
  - apply (proj2 (health_route_outcomes _ _) {[ "username" := PStr "alice" ]}).
    vm_compute. reflexivity.
  - apply (proj1 (health_route_outcomes _ _)). vm_compute. reflexivity.
Defined.

End routes_more_examples.

(** ** More on the statement guards *)

Section guards_more.
Import Notions DatabaseManager.

Lemma upper_lower_char c : upper_char (lower_char c) = upper_char c.
Proof. destruct c as [[] [] [] [] [] [] [] []]; reflexivity. Qed.

Lemma lower_char_space c : is_space (lower_char c) = is_space c.
Proof. destruct c as [[] [] [] [] [] [] [] []]; reflexivity. Qed.

Lemma upper_lower s : upper (lower s) = upper s.
Proof.
  induction s as [|c s IH]; [done|].
  unfold upper, lower in *. simpl. by rewrite upper_lower_char, IH.
Qed.

Lemma lstrip_lower s : lstrip (lower s) = lower (lstrip s).
Proof.
  induction s as [|c s IH]; [done|].
  unfold lower in *. simpl. rewrite lower_char_space.
  by destruct (is_space c).
Qed.

Lemma rstrip_lower s : rstrip (lower s) = lower (rstrip s).
Proof.
  induction s as [|c s IH]; [done|].
  unfold lower in *. simpl. rewrite IH, lower_char_space.
  destruct (rstrip s); [by destruct (is_space c)|done].
Qed.

Lemma blank_lstrip b : all_chars is_space b = true → lstrip b = EmptyString.
Proof.
  induction b as [|c b IH]; [done|]. simpl.
  intros [-> Hb]%andb_prop. by apply IH.
Qed.

Lemma blank_rstrip b : all_chars is_space b = true → rstrip b = EmptyString.
Proof.
  induction b as [|c b IH]; [done|]. simpl.
  intros [-> Hb]%andb_prop. by rewrite IH.
Qed.

Lemma lstrip_blank_app a s :
  all_chars is_space a = true → lstrip (a +:+ s) = lstrip s.
Proof.
  induction a as [|c a IH]; [done|]. simpl.
  intros [-> Ha]%andb_prop. by apply IH.
Qed.

Lemma rstrip_app_blank s b :
  all_chars is_space b = true → rstrip (s +:+ b) = rstrip s.
Proof.
  intros Hb. induction s as [|c s IH]; [by apply blank_rstrip|].
  simpl. by rewrite IH.
Qed.

Lemma lstrip_app_blank s b :
  all_chars is_space b = true →
  ∃ b', all_chars is_space b' = true ∧ lstrip (s +:+ b) = lstrip s +:+ b'.
Proof.
  intros Hb. induction s as [|c s IH].
  - exists EmptyString. split; [done|]. by apply blank_lstrip.
  - simpl. destruct (is_space c); [done|]. by exists b.
Qed.

Lemma strip_padding a s b :
  all_chars is_space a = true → all_chars is_space b = true →
  strip (a +:+ s +:+ b) = strip s.
Proof.
  intros Ha Hb. unfold strip. rewrite (lstrip_blank_app _ _ Ha).
  destruct (lstrip_app_blank s b Hb) as (b' & Hb' & ->).
  by apply rstrip_app_blank.
Qed.

(** The statement guards look past blanks around the statement and do not
    tell upper case from lower: padding a statement with white space, or
    writing it in lower case, changes the verdict of no guard. *)
Theorem guards_ignore_case_and_padding :
  ∀ (query before behind verb : string),
    all_chars is_space before = true →
    all_chars is_space behind = true →
    has_verb (before +:+ query +:+ behind) verb = has_verb query verb
    ∧ has_verb (lower query) verb = has_verb query verb.
Proof.
  intros query before behind verb Ha Hb. unfold has_verb. split.
  - by rewrite strip_padding.
  - unfold strip. by rewrite lstrip_lower, rstrip_lower, upper_lower.
Qed.

Lemma guards_ignore_case_and_padding_witness :
  has_verb ("  " +:+ "SELECT 1" +:+ " ") "SELECT" = has_verb "SELECT 1" "SELECT"
  ∧ has_verb (lower "SELECT 1") "SELECT" = has_verb "SELECT 1" "SELECT".
Proof.
  apply guards_ignore_case_and_padding; reflexivity.
Defined.

End guards_more.

(** ** More on issuing tokens and on what the operations return *)

Section tokens_more.
Import Notions DatabaseManager JwtHandler.
Context {jose : Jose}.

(** [create_access_token] sets [exp] itself, to now plus the lifetime, a
    lifetime that is absent or zero counting as fifteen minutes.  When that
    instant is one a [datetime] holds it returns a token signed over the
    caller's claims with that [exp]: an [exp] the caller supplies is
    overwritten, every other claim is kept.  When it is not, nothing is
    signed and the call ends in [OverflowError]. *)
Theorem create_access_token_sets_expiry :
  ∀ (data : claims) (delta : option Z) (w : world),
    let lifetime := match delta with
                    | Some d => if d =? 0 then 900 else d
                    | None => 900
                    end in
    (representable (clock w + lifetime) →
     ∃ to_encode : claims,
       create_access_token data delta w = (Ok (jwt_encode to_encode), w)
       ∧ to_encode !! "exp" = Some (PInt (clock w + lifetime))
       ∧ ∀ key, key ≠ "exp" → to_encode !! key = data !! key)
    ∧ (¬ representable (clock w + lifetime) →
       create_access_token data delta w = (Raise OverflowError, w)).
Proof.
  intros data delta w lifetime.
  assert (delta_or delta (minutes 15) = lifetime) as Hl
    by by destruct delta.
  destruct (create_access_token_cases data delta w) as [[Hr Hrun]|[Hr Hrun]];
    rewrite Hl in *; split; try done.
  intros _. eexists. split; [exact Hrun|]. split.
  - by rewrite lookup_insert_eq.
  - intros key Hkey. by rewrite lookup_insert_ne.
Qed.

(** A token issued over claims without [sub] is refused on both
    verification paths with a 401, whatever its [type]. *)
Theorem tokens_without_subject_are_refused :
  ∀ (data : claims) (delta : option Z) (w w1 w' : world) (token : string),
    data !! "sub" = None →
    create_access_token data delta w = (Ok token, w1)
    ∨ create_refresh_token data delta w = (Ok token, w1) →
    unauthenticated (fst (get_current_user token w'))
    ∧ unauthenticated (fst (verify_refresh_token token w')).
Proof.
  intros data delta w w1 w' token Hsub Hissued.
  assert (∀ payload, jwt_decode token (clock w') = Some payload →
                     payload !! "sub" = None) as Hno.
  { intros payload Hd.
    destruct Hissued as [[-> _]%create_access_token_inv
                        |[-> _]%create_refresh_token_inv];
      apply jwt_decode_encode in Hd as ->;
      by rewrite lookup_fmap, !lookup_insert_ne, Hsub. }
  split.
  - unfold get_current_user, bind, decode_token, bind, gets, ret.
    destruct (jwt_decode token (clock w')) as [payload|] eqn:Hd;
      [|by eexists].
    destruct (negb _); [by eexists|].
    rewrite (Hno payload eq_refl). by eexists.
  - unfold verify_refresh_token, bind, gets.
    destruct (jwt_decode token (clock w')) as [payload|] eqn:Hd;
      [|by eexists].
    destruct (negb _); [by eexists|].
    rewrite (Hno payload eq_refl). by eexists.
Qed.

(** What the writing operations hand back.  When the guard passes and the
    store runs the statement, [insert] returns the row identifier the
    cursor reports, and raises "INSERT did not return a row ID" if it
    reports none, after the statement has run; [update] and [delete]
    return the cursor's row count. *)
Theorem writes_return_what_the_cursor_reports :
  ∀ (query : string) (values : list pyval) (w w' : world) (c : cursor),
    sqlite_execute query values w = (inr c, w') →
    (leading_verb query INSERT →
     insert query values w
     = (match cur_lastrowid c with
        | Some row_id => Ok row_id
        | None => Raise (DatabaseError "INSERT did not return a row ID")
        end, w'))
    ∧ (leading_verb query UPDATE →
       update query values w = (Ok (cur_rowcount c), w'))
    ∧ (leading_verb query DELETE →
       delete query values w = (Ok (cur_rowcount c), w')).
Proof.
  intros query values w w' c Hrun. repeat split; intros Hv.
  - destruct (has_verb_leading query INSERT "INSERT" Hv) as [r Hr].
    unfold insert. rewrite Hr. cbn [verb_text]. 
    assert (String.prefix "INSERT" ("INSERT" +:+ r) = true) as ->
      by (simpl; by destruct r).
    cbn [negb]. unfold bind, _execute. rewrite Hrun. cbn [lastrowid].
    by destruct (cur_lastrowid c).
  - destruct (has_verb_leading query UPDATE "UPDATE" Hv) as [r Hr].
    unfold update. rewrite Hr. cbn [verb_text].
    assert (String.prefix "UPDATE" ("UPDATE" +:+ r) = true) as ->
      by (simpl; by destruct r).
    cbn [negb]. unfold bind, _execute. by rewrite Hrun.
  - destruct (has_verb_leading query DELETE "DELETE" Hv) as [r Hr].
    unfold delete. rewrite Hr. cbn [verb_text].
    assert (String.prefix "DELETE" ("DELETE" +:+ r) = true) as ->
      by (simpl; by destruct r).
    cbn [negb]. unfold bind, _execute. by rewrite Hrun.
Qed.

End tokens_more.

Section tokens_more_examples.
Import Notions DatabaseManager JwtHandler Reference.

Lemma tokens_without_subject_are_refused_witness :
  unauthenticated
    (fst (get_current_user
            (jwt_encode (<[ "exp" := PInt 1900 ]> {[ "type" := PStr "access" ]}))
            (world_of [] [])))
  ∧ unauthenticated
      (fst (verify_refresh_token
              (jwt_encode
                 (<[ "exp" := PInt 1900 ]> {[ "type" := PStr "access" ]}))
              (world_of [] []))).
Proof.
  apply (tokens_without_subject_are_refused {[ "type" := PStr "access" ]}
           None (world_of [] []) (world_of [] []) (world_of [] [])).
  - reflexivity.
  - left. reflexivity.
Defined.

Lemma writes_return_what_the_cursor_reports_witness :
  insert "INSERT INTO nvidia_stock (date) VALUES (?)" [PStr "2024-01-02"]
    (world_of []
       [Answer {| fetched := []; cur_lastrowid := Some 12; cur_rowcount := 1 |}])
  = (Ok 12,
     connect (world_of []
       [Answer {| fetched := []; cur_lastrowid := Some 12;
                  cur_rowcount := 1 |}]))
  ∧ update "UPDATE nvidia_stock SET close = ? WHERE date = ?"
      [PInt 48; PStr "2024-01-02"]
      (world_of []
         [Answer {| fetched := []; cur_lastrowid := None; cur_rowcount := 3 |}])
    = (Ok 3,
       connect (world_of []
         [Answer {| fetched := []; cur_lastrowid := None;
                    cur_rowcount := 3 |}])).
Proof.
  split.
  - apply (proj1 (writes_return_what_the_cursor_reports
             "INSERT INTO nvidia_stock (date) VALUES (?)" [PStr "2024-01-02"]
             (world_of []
                [Answer {| fetched := []; cur_lastrowid := Some 12;
                           cur_rowcount := 1 |}]) _
             {| fetched := []; cur_lastrowid := Some 12; cur_rowcount := 1 |}
             eq_refl)). reflexivity.
  - apply (proj1 (proj2 (writes_return_what_the_cursor_reports
             "UPDATE nvidia_stock SET close = ? WHERE date = ?"
             [PInt 48; PStr "2024-01-02"]
             (world_of []
                [Answer {| fetched := []; cur_lastrowid := None;
                           cur_rowcount := 3 |}]) _
             {| fetched := []; cur_lastrowid := None; cur_rowcount := 3 |}
             eq_refl))). reflexivity.
Defined.

End tokens_more_examples.

Section more_examples.
Import Notions DatabaseManager JwtHandler Reference.

Lemma get_table_info_always_raises_witness :
  get_table_info "users"
    (world_of []
       [Answer {| fetched := [{[ "name" := PStr "users" ]}];
                  cur_lastrowid := None; cur_rowcount := -1 |}])
  = (Raise (DatabaseError "Query must be a SELECT statement"),
     connect (world_of []
       [Answer {| fetched := [{[ "name" := PStr "users" ]}];
                  cur_lastrowid := None; cur_rowcount := -1 |}])).
Proof.
  apply (proj2 (get_table_info_always_raises "users" _)). reflexivity.
Defined.

Lemma create_access_token_sets_expiry_witness :
  (∃ to_encode : claims,
     create_access_token
       {[ "sub" := PStr "alice"; "exp" := PInt 0 ]} (Some 0) (world_of [] [])
     = (Ok (jwt_encode to_encode), world_of [] [])
     ∧ to_encode !! "exp" = Some (PInt 1900)
     ∧ to_encode !! "sub" = Some (PStr "alice"))
  ∧ create_access_token {[ "sub" := PStr "alice" ]} (Some (days 3000000))
      (world_of [] [])
    = (Raise OverflowError, world_of [] []).
Proof.
  split.
  - destruct (proj1 (create_access_token_sets_expiry
                {[ "sub" := PStr "alice"; "exp" := PInt 0 ]} (Some 0)
                (world_of [] []))) as (c & Hrun & Hexp & Hkeep).
    + split; vm_compute; discriminate.
    + exists c. split; [exact Hrun|]. split; [exact Hexp|].
      rewrite (Hkeep "sub"); [reflexivity|discriminate].
  - apply (proj2 (create_access_token_sets_expiry
             {[ "sub" := PStr "alice" ]} (Some (days 3000000))
             (world_of [] []))).
    intros [_ Hhi]. vm_compute in Hhi. by apply Hhi.
Defined.

End more_examples.
